(** * meshgen.io model viewer: a shallow embedding of
      [src/components/model-viewer.tsx]

    The development follows the source file top to bottom:

    - [number]: the values of the JavaScript [number] type as the viewer
      uses them, with [Math.min], [Math.max], [Math.log] and [Math.pow];
    - [Three]: the scene graph of the rendering library, its traversal
      and its bounding box;
    - [ModelLoader]: the asset loader, as a transition system over the
      events the browser can deliver to a component instance;
    - [ModelContent]: the material side table, [handleModelLoad] and
      [toggleTextures];
    - [MovableLight]: the pointer handlers of the light;
    - [ModelViewer]: [handleSaveModel], with the answers of the server
      actions as inputs;
    - [tempToColor].

    Definitions come first, the properties proved about them second. *)

From Stdlib Require Import Reals Lra Lia Bool List.
From Stdlib Require PrimFloat.
From stdpp Require Import gmap strings list pretty.

(* ===================================================================== *)
(** ** JavaScript numbers *)
(* ===================================================================== *)

(** A JavaScript [number] is an IEEE 754 binary64 value.  The model keeps
    its three kinds of special value and takes the finite ones to be real
    numbers, so arithmetic on finite values is exact: rounding is not
    modelled, and the two zeros are identified.  What would overflow to an
    infinity in binary64 stays finite here, and what would underflow to a
    zero stays non-zero.  The properties stated below are therefore of the
    kinds that rounding does not break: which branch and which expression
    the code computes, bounds that a clamp enforces, and special values.
    None of them concludes that a sum cancels exactly, that a result
    stays finite, or that a quotient near zero keeps its sign; where the
    code's arithmetic matters, module [Float64] has it in binary64
    itself. *)
Inductive number : Type :=
| NaN
| NegInf
| Fin (r : R)
| PosInf.

(** Unary minus. *)
Definition neg (a : number) : number :=
  match a with
  | NaN => NaN
  | NegInf => PosInf
  | Fin r => Fin (- r)
  | PosInf => NegInf
  end.

(** [a + b]: the sum of opposite infinities is [NaN]. *)
Definition add (a b : number) : number :=
  match a, b with
  | NaN, _ | _, NaN => NaN
  | PosInf, NegInf | NegInf, PosInf => NaN
  | PosInf, _ | _, PosInf => PosInf
  | NegInf, _ | _, NegInf => NegInf
  | Fin x, Fin y => Fin (x + y)
  end.

(** [a - b] is [a + (-b)]. *)
Definition sub (a b : number) : number := add a (neg b).

(** An infinity of the sign of [r]; [NaN] when [r] is zero. *)
Definition signed_inf (r : R) : number :=
  match total_order_T 0 r with
  | inleft (left _) => PosInf
  | inleft (right _) => NaN
  | inright _ => NegInf
  end.

(** [a * b]: an infinity times zero is [NaN]. *)
Definition mul (a b : number) : number :=
  match a, b with
  | NaN, _ | _, NaN => NaN
  | PosInf, PosInf | NegInf, NegInf => PosInf
  | PosInf, NegInf | NegInf, PosInf => NegInf
  | PosInf, Fin y => signed_inf y
  | NegInf, Fin y => signed_inf (- y)
  | Fin x, PosInf => signed_inf x
  | Fin x, NegInf => signed_inf (- x)
  | Fin x, Fin y => Fin (x * y)
  end.

(** [a / b]: zero over zero and infinity over infinity are [NaN]; a
    non-zero finite value over zero is the infinity of its sign (the zero
    being the positive one). *)
Definition div (a b : number) : number :=
  match a, b with
  | NaN, _ | _, NaN => NaN
  | (PosInf | NegInf), (PosInf | NegInf) => NaN
  | PosInf, Fin y => if Rlt_dec y 0 then NegInf else PosInf
  | NegInf, Fin y => if Rlt_dec y 0 then PosInf else NegInf
  | Fin _, (PosInf | NegInf) => Fin 0
  | Fin x, Fin y => if Req_dec_T y 0 then signed_inf x else Fin (x / y)
  end.

(** [a <= b] and [a < b]: every comparison with [NaN] is false. *)
Definition leb (a b : number) : bool :=
  match a, b with
  | NaN, _ | _, NaN => false
  | NegInf, _ => true
  | _, PosInf => true
  | _, NegInf => false
  | PosInf, _ => false
  | Fin x, Fin y => if Rle_dec x y then true else false
  end.

Definition ltb (a b : number) : bool :=
  match a, b with
  | NaN, _ | _, NaN => false
  | PosInf, _ => false
  | _, NegInf => false
  | NegInf, _ => true
  | _, PosInf => true
  | Fin x, Fin y => if Rlt_dec x y then true else false
  end.

(** [Math.min] and [Math.max]: [NaN] as soon as an argument is [NaN]. *)
Definition Math_min (a b : number) : number :=
  match a, b with
  | NaN, _ | _, NaN => NaN
  | NegInf, _ | _, NegInf => NegInf
  | PosInf, x | x, PosInf => x
  | Fin x, Fin y => Fin (Rmin x y)
  end.

Definition Math_max (a b : number) : number :=
  match a, b with
  | NaN, _ | _, NaN => NaN
  | PosInf, _ | _, PosInf => PosInf
  | NegInf, x | x, NegInf => x
  | Fin x, Fin y => Fin (Rmax x y)
  end.

(** [Math.log], the natural logarithm: [NaN] below zero, minus infinity at
    zero. *)
Definition Math_log (a : number) : number :=
  match a with
  | NaN | NegInf => NaN
  | PosInf => PosInf
  | Fin r =>
      match total_order_T 0 r with
      | inleft (left _) => Fin (ln r)
      | inleft (right _) => NegInf
      | inright _ => NaN
      end
  end.

(** Whether a real is an integer, and an odd one. *)
Definition is_integer (e : R) : bool :=
  if Req_dec_T (frac_part e) 0 then true else false.

Definition is_odd_integer (e : R) : bool :=
  is_integer e && Z.odd (Int_part e).

(** [Math.pow base exponent], after the case list of the language
    definition ([Number::exponentiate]). *)
Definition Math_pow (base exponent : number) : number :=
  match exponent with
  | NaN => NaN
  | Fin e =>
      if Req_dec_T e 0 then Fin 1 else
      match base with
      | NaN => NaN
      | PosInf => if Rlt_dec 0 e then PosInf else Fin 0
      | NegInf =>
          if Rlt_dec 0 e
          then (if is_odd_integer e then NegInf else PosInf)
          else Fin 0
      | Fin b =>
          match total_order_T 0 b with
          | inleft (left _) => Fin (Rpower b e)
          | inleft (right _) => if Rlt_dec 0 e then Fin 0 else PosInf
          | inright _ =>
              if is_integer e then Fin (powerRZ b (Int_part e)) else NaN
          end
      end
  | PosInf =>
      match base with
      | NaN => NaN
      | PosInf | NegInf => PosInf
      | Fin b =>
          match total_order_T (Rabs b) 1 with
          | inleft (left _) => Fin 0
          | inleft (right _) => NaN
          | inright _ => PosInf
          end
      end
  | NegInf =>
      match base with
      | NaN => NaN
      | PosInf | NegInf => Fin 0
      | Fin b =>
          match total_order_T (Rabs b) 1 with
          | inleft (left _) => PosInf
          | inleft (right _) => NaN
          | inright _ => Fin 0
          end
      end
  end.

(** [clamp x lo hi], the way the specification uses the word: [lo] below
    [lo], [hi] above [hi], [x] itself in between (and for [NaN], which
    compares false with everything). *)
Definition clamp (x lo hi : number) : number :=
  if ltb x lo then lo else if ltb hi x then hi else x.

Definition is_finite (a : number) : Prop := exists r, a = Fin r.

(** A finite value between two real bounds. *)
Definition within (lo hi : R) (a : number) : Prop :=
  exists r : R, a = Fin r /\ (lo <= r <= hi)%R.

Declare Scope number_scope.
Delimit Scope number_scope with num.
Bind Scope number_scope with number.
Notation "a + b" := (add a b) : number_scope.
Notation "a - b" := (sub a b) : number_scope.
Notation "a * b" := (mul a b) : number_scope.
Notation "a / b" := (div a b) : number_scope.
Notation "- a" := (neg a) : number_scope.
Notation "a <=? b" := (leb a b) : number_scope.
Notation "a <? b" := (ltb a b) : number_scope.

Definition vec3 : Type := number * number * number.

(* ===================================================================== *)
(** ** The scene graph of the rendering library *)
(* ===================================================================== *)

Module Three.

(** The value of a mesh's [material] field: a reference to one material or
    to an array of materials.  References are compared by identity
    ([===]), which is equality of addresses. *)
Inductive MaterialRef : Type :=
| Material (addr : nat)
| MaterialArray (addr : nat).

#[global] Instance MaterialRef_eq_dec : EqDecision MaterialRef.
Proof. solve_decision. Defined.

(** What an object is: a [THREE.Mesh], with its material and the points of
    its geometry's bounding box in the mesh's own frame, or any other kind
    of node. *)
Inductive ObjectKind : Type :=
| Mesh (material : MaterialRef) (corners : list vec3)
| Group.

(** The fields of one object.  [oid] is its identity (the key under which
    a [Map] holds it; two objects of one graph never share it);
    [position] is its translation and [linear] the rotation and scale
    part of its local matrix, so that a point [p] of its frame lies at
    [linear p + position] in the frame of its parent. *)
Record Node : Type := mkNode {
  oid : nat;
  kind : ObjectKind;
  position : vec3;
  linear : vec3 -> vec3;
  castShadow : bool;
  receiveShadow : bool
}.

(** An object with its [children]. *)
#[warnings="-register-all"]
Inductive Object3D : Type :=
| Object (node : Node) (children : list Object3D).

Definition root (o : Object3D) : Node :=
  match o with Object n _ => n end.

(** [object.traverse(callback)]: the callback runs on the object, then on
    each child's subtree in order.  The callback may update the fields of
    the object it is given and a state [S] shared by all its calls. *)
Fixpoint traverse {S : Type} (callback : Node -> S -> Node * S)
    (o : Object3D) (s : S) : Object3D * S :=
  match o with
  | Object n ch =>
      let '(n', s1) := callback n s in
      let '(ch', s2) :=
        (fix each (l : list Object3D) (s : S) : list Object3D * S :=
           match l with
           | [] => ([], s)
           | c :: l' =>
               let '(c', s') := traverse callback c s in
               let '(l'', s'') := each l' s' in
               (c' :: l'', s'')
           end) ch s1 in
      (Object n' ch', s2)
  end.

Definition traverse_each {S : Type} (callback : Node -> S -> Node * S)
    : list Object3D -> S -> list Object3D * S :=
  fix each (l : list Object3D) (s : S) : list Object3D * S :=
    match l with
    | [] => ([], s)
    | c :: l' =>
        let '(c', s') := traverse callback c s in
        let '(l'', s'') := each l' s' in
        (c' :: l'', s'')
    end.

Definition vadd (a b : vec3) : vec3 :=
  let '(ax, ay, az) := a in
  let '(bx, by', bz) := b in
  ((ax + bx)%num, (ay + by')%num, (az + bz)%num).

Definition vmin (a b : vec3) : vec3 :=
  let '(ax, ay, az) := a in
  let '(bx, by', bz) := b in
  (Math_min ax bx, Math_min ay by', Math_min az bz).

Definition vmax (a b : vec3) : vec3 :=
  let '(ax, ay, az) := a in
  let '(bx, by', bz) := b in
  (Math_max ax bx, Math_max ay by', Math_max az bz).

Definition x_of (p : vec3) : number := fst (fst p).
Definition y_of (p : vec3) : number := snd (fst p).
Definition z_of (p : vec3) : number := snd p.

(** A point of the frame of [n], in the frame of the parent of [n]. *)
Definition to_parent (n : Node) (p : vec3) : vec3 :=
  vadd (linear n p) (position n).

Definition own_points (n : Node) : list vec3 :=
  match kind n with
  | Mesh _ corners => corners
  | Group => []
  end.

(** The bounding points of a subtree in the frame of the parent of its
    root; for an object without a parent, in world space. *)
Fixpoint world_points (o : Object3D) : list vec3 :=
  match o with
  | Object n ch => map (to_parent n) (own_points n ++ flat_map world_points ch)
  end.


(** [THREE.Box3]. *)
Record Box3 : Type := mkBox3 {
  min : vec3;
  max : vec3
}.

(** [makeEmpty]: the box that contains nothing. *)
Definition makeEmpty : Box3 :=
  {| min := (PosInf, PosInf, PosInf); max := (NegInf, NegInf, NegInf) |}.

Definition expandByPoint (b : Box3) (p : vec3) : Box3 :=
  {| min := vmin (min b) p; max := vmax (max b) p |}.

(** [new THREE.Box3().setFromObject(object)], for an object that has no
    parent: the axis-aligned box around the bounding points of the object
    and of all its descendants. *)
Definition setFromObject (o : Object3D) : Box3 :=
  fold_left expandByPoint (world_points o) makeEmpty.

(** [object.position.y += d]. *)
Definition add_position_y (d : number) (o : Object3D) : Object3D :=
  match o with
  | Object n ch =>
      let '(px, py, pz) := position n in
      Object
        {| oid := oid n; kind := kind n;
           position := (px, (py + d)%num, pz);
           linear := linear n;
           castShadow := castShadow n; receiveShadow := receiveShadow n |}
        ch
  end.

(** The objects of a subtree in traversal order, their identities, and
    the meshes among them with their current material. *)
Fixpoint nodes (o : Object3D) : list Node :=
  match o with
  | Object n ch => n :: flat_map nodes ch
  end.

Definition mesh_material (n : Node) : option (nat * MaterialRef) :=
  match kind n with
  | Mesh m _ => Some (oid n, m)
  | Group => None
  end.

Definition mesh_materials (o : Object3D) : list (nat * MaterialRef) :=
  omap mesh_material (nodes o).

Definition object_ids (o : Object3D) : list nat := map oid (nodes o).

(** The same tree with [f] applied to the fields of every object. *)
Fixpoint map_nodes (f : Node -> Node) (o : Object3D) : Object3D :=
  match o with
  | Object n ch => Object (f n) (map (map_nodes f) ch)
  end.

(** Two nodes that agree on everything the bounding box depends on. *)
Definition same_frame (n n' : Node) : Prop :=
  own_points n' = own_points n /\
  position n' = position n /\
  linear n' = linear n.


End Three.

(* ===================================================================== *)
(** ** [LightState] *)
(* ===================================================================== *)

(** [interface LightState]. *)
Record LightState : Type := mkLightState {
  position : vec3;
  intensity : number;
  temperature : number
}.

Definition INITIAL_LIGHT_STATE : LightState :=
  {| position := (Fin 2, Fin 2, Fin 2);
     intensity := Fin 1;
     temperature := Fin 6500 |}.

(* ===================================================================== *)
(** ** [ModelLoader] *)
(* ===================================================================== *)

Module ModelLoader.

(** The component is modelled by what the framework does with it.  The
    effect runs after the mount and after every render in which [url] or
    [retryCount] differs from the previous render, the cleanup of the
    previous run first (the two callbacks [onLoad] and [onError] are
    memoised by the parent and never differ).  A state update on a
    mounted component leads to such a render; on an unmounted one it is
    dropped.  The loader calls exactly one of the two callbacks of a load,
    once, at a time of its choosing; a timer fires at a time of its
    choosing.  Every order of these events is a run of the model, those
    the clock allows among them. *)

(** The value a failed load hands to the error callback: an instance of
    [Error] with its [message], or any other value, which may carry a
    [message] of its own (an [ErrorEvent] does) or none. *)
Inductive JsValue : Type :=
| ErrorInstance (message : string)
| OtherValue (message : option string).

(** The [message] a value carries, if any. *)
Definition message_of (err : JsValue) : option string :=
  match err with
  | ErrorInstance message => Some message
  | OtherValue message => message
  end.

(** One call of [loader.load]: the closure of one run of the effect.  It
    keeps the [url] and [retryCount] of the render it was created in and
    its own [canceled] variable. *)
Record Request : Type := mkRequest {
  request_id : nat;
  request_url : string;
  request_retryCount : nat;
  canceled : bool
}.

(** A pending [setTimeout]. *)
Record Timer : Type := mkTimer {
  timer_id : nat;
  delay : nat
}.

(** A call of one of the two callbacks received as props. *)
Inductive Call : Type :=
| OnLoad (scene : Three.Object3D)
| OnError (error : string).

(** The component instance: the prop [url], the three pieces of state,
    the run of the effect whose cleanup is registered ([live]), the loads
    in flight and the timers pending, and what the component has done so
    far: the calls of [onLoad] and [onError] and the delays passed to
    [setTimeout], oldest first. *)
Record state : Type := mkState {
  mounted : bool;
  url : string;
  retryCount : nat;
  model : option Three.Object3D;
  modelError : option string;
  live : option nat;
  requests : list Request;
  timers : list Timer;
  next_request : nat;
  next_timer : nat;
  calls : list Call;
  scheduled : list nat
}.

Definition maxRetries : nat := 3.

(** The body of the effect: start a load with a fresh [canceled = false]. *)
Definition run_effect (s : state) : state :=
  {| mounted := mounted s; url := url s; retryCount := retryCount s;
     model := model s; modelError := modelError s;
     live := Some (next_request s);
     requests :=
       requests s
       ++ [ {| request_id := next_request s; request_url := url s;
               request_retryCount := retryCount s; canceled := false |} ];
     timers := timers s;
     next_request := S (next_request s); next_timer := next_timer s;
     calls := calls s; scheduled := scheduled s |}.

Definition cancel (id : nat) (r : Request) : Request :=
  if Nat.eqb (request_id r) id
  then {| request_id := request_id r; request_url := request_url r;
          request_retryCount := request_retryCount r; canceled := true |}
  else r.

(** The cleanup the effect returns: [canceled = true] in the closure of
    the run it belongs to.  It touches no timer. *)
Definition cleanup (s : state) : state :=
  match live s with
  | None => s
  | Some id =>
      {| mounted := mounted s; url := url s; retryCount := retryCount s;
         model := model s; modelError := modelError s;
         live := None;
         requests := map (cancel id) (requests s);
         timers := timers s;
         next_request := next_request s; next_timer := next_timer s;
         calls := calls s; scheduled := scheduled s |}
  end.

(** A render in which a dependency of the effect has changed: the cleanup
    of the previous run, then the effect again. *)
Definition rerun_effect (s : state) : state := run_effect (cleanup s).

(** Mounting: [retryCount] is 0, there is no model and no error, and the
    effect runs for the first time. *)
Definition mount (u : string) : state :=
  run_effect
    {| mounted := true; url := u; retryCount := 0;
       model := None; modelError := None;
       live := None; requests := []; timers := [];
       next_request := 0; next_timer := 0;
       calls := []; scheduled := [] |}.

Definition find_request (id : nat) (l : list Request) : option Request :=
  find (fun r => Nat.eqb (request_id r) id) l.

Fixpoint remove_request (id : nat) (l : list Request) : list Request :=
  match l with
  | [] => []
  | r :: l' =>
      if Nat.eqb (request_id r) id then l' else r :: remove_request id l'
  end.

Definition find_timer (id : nat) (l : list Timer) : option Timer :=
  find (fun t => Nat.eqb (timer_id t) id) l.

Fixpoint remove_timer (id : nat) (l : list Timer) : list Timer :=
  match l with
  | [] => []
  | t :: l' =>
      if Nat.eqb (timer_id t) id then l' else t :: remove_timer id l'
  end.

Definition with_requests (l : list Request) (s : state) : state :=
  {| mounted := mounted s; url := url s; retryCount := retryCount s;
     model := model s; modelError := modelError s; live := live s;
     requests := l; timers := timers s;
     next_request := next_request s; next_timer := next_timer s;
     calls := calls s; scheduled := scheduled s |}.

(** The success callback of a load, in the closure [r]. *)
Definition on_success (r : Request) (scene : Three.Object3D) (s : state)
    : state :=
  if canceled r then s
  else
    {| mounted := mounted s; url := url s; retryCount := retryCount s;
       model := Some scene; modelError := modelError s; live := live s;
       requests := requests s; timers := timers s;
       next_request := next_request s; next_timer := next_timer s;
       calls := calls s ++ [OnLoad scene]; scheduled := scheduled s |}.

(** The message the error callback reports: that of an [Error], the
    fixed text for any other value. *)
Definition error_message (err : JsValue) : string :=
  match err with
  | ErrorInstance message => message
  | OtherValue _ => "Failed to load model"
  end.

(** The error callback of a load, in the closure [r]. *)
Definition on_failure (r : Request) (err : JsValue) (s : state) : state :=
  if canceled r then s
  else if Nat.ltb (request_retryCount r) maxRetries then
    {| mounted := mounted s; url := url s; retryCount := retryCount s;
       model := model s; modelError := modelError s; live := live s;
       requests := requests s;
       timers :=
         timers s
         ++ [ {| timer_id := next_timer s;
                 delay := 1000 * request_retryCount r |} ];
       next_request := next_request s; next_timer := S (next_timer s);
       calls := calls s;
       scheduled := scheduled s ++ [1000 * request_retryCount r] |}
  else
    let message := error_message err in
    {| mounted := mounted s; url := url s; retryCount := retryCount s;
       model := model s; modelError := Some message; live := live s;
       requests := requests s; timers := timers s;
       next_request := next_request s; next_timer := next_timer s;
       calls := calls s ++ [OnError message]; scheduled := scheduled s |}.

(** The callback of a timer: [setRetryCount((prev) => prev + 1)].  On a
    mounted component the new [retryCount] is a changed dependency, so
    the effect runs again; on an unmounted one the update is dropped. *)
Definition on_timer (s : state) : state :=
  if mounted s then
    rerun_effect
      {| mounted := mounted s; url := url s; retryCount := retryCount s + 1;
         model := model s; modelError := modelError s; live := live s;
         requests := requests s; timers := timers s;
         next_request := next_request s; next_timer := next_timer s;
         calls := calls s; scheduled := scheduled s |}
  else s.

Definition with_timers (l : list Timer) (s : state) : state :=
  {| mounted := mounted s; url := url s; retryCount := retryCount s;
     model := model s; modelError := modelError s; live := live s;
     requests := requests s; timers := l;
     next_request := next_request s; next_timer := next_timer s;
     calls := calls s; scheduled := scheduled s |}.

(** A new [url] prop. *)
Definition set_url (u : string) (s : state) : state :=
  if mounted s && negb (String.eqb u (url s)) then
    rerun_effect
      {| mounted := mounted s; url := u; retryCount := retryCount s;
         model := model s; modelError := modelError s; live := live s;
         requests := requests s; timers := timers s;
         next_request := next_request s; next_timer := next_timer s;
         calls := calls s; scheduled := scheduled s |}
  else s.

(** Unmounting runs the cleanup of the last run of the effect. *)
Definition unmount (s : state) : state :=
  if mounted s then
    let s' := cleanup s in
    {| mounted := false; url := url s'; retryCount := retryCount s';
       model := model s'; modelError := modelError s'; live := live s';
       requests := requests s'; timers := timers s';
       next_request := next_request s'; next_timer := next_timer s';
       calls := calls s'; scheduled := scheduled s' |}
  else s.

(** What can happen to a component instance: a load in flight completes
    one way or the other, a pending timer fires, the parent passes a new
    [url], or the parent unmounts the component. *)
Inductive event : Type :=
| LoadSucceeded (id : nat) (scene : Three.Object3D)
| LoadFailed (id : nat) (err : JsValue)
| TimerFired (id : nat)
| UrlChanged (u : string)
| Unmounted.

Definition step (s : state) (e : event) : state :=
  match e with
  | LoadSucceeded id scene =>
      match find_request id (requests s) with
      | Some r =>
          on_success r scene (with_requests (remove_request id (requests s)) s)
      | None => s
      end
  | LoadFailed id err =>
      match find_request id (requests s) with
      | Some r =>
          on_failure r err (with_requests (remove_request id (requests s)) s)
      | None => s
      end
  | TimerFired id =>
      match find_timer id (timers s) with
      | Some _ => on_timer (with_timers (remove_timer id (timers s)) s)
      | None => s
      end
  | UrlChanged u => set_url u s
  | Unmounted => unmount s
  end.

Definition run (s : state) (trace : list event) : state :=
  fold_left step trace s.

Definition is_url_change (e : event) : bool :=
  match e with
  | UrlChanged _ => true
  | _ => false
  end.

(** The loads in flight whose closure has not been canceled. *)
Definition pending (l : list Request) : list Request :=
  List.filter (fun r => negb (canceled r)) l.

(** What holds of a component instance as long as its [url] has not
    changed: the counter is within its bound; at most one timer is
    pending, and while one is, the counter is below the bound and no load
    can still report; at most one load can still report, and it was
    started with the current counter. *)
Definition consistent (s : state) : Prop :=
  retryCount s <= maxRetries /\
  length (timers s) <= 1 /\
  (timers s <> [] -> retryCount s < maxRetries /\ pending (requests s) = []) /\
  length (pending (requests s)) <= 1 /\
  Forall (fun r => request_retryCount r = retryCount s) (pending (requests s)).

(** What holds of every component instance: a load that can still report
    belongs to the last run of the effect and fetches the current
    [url]. *)
Definition live_only (s : state) : Prop :=
  Forall (fun r => live s = Some (request_id r) /\ request_url r = url s)
    (pending (requests s)).

(** What the component renders: the error text beside a still icon, a
    text beside a spinning icon, or nothing. *)
Inductive View : Type :=
| ErrorView (text : string)
| LoadingView (text : string)
| NoView.

(** The text under the spinner. *)
Definition loading_text (retryCount : nat) : string :=
  if Nat.ltb retryCount maxRetries then
    "Loading model"
    ++ (if Nat.ltb 0 retryCount
        then " (Attempt " ++ pretty (retryCount + 1) ++ ")"
        else "")
  else "Failed to load model".

(** A string in a condition: the empty string counts as false. *)
Definition truthy (text : option string) : bool :=
  match text with
  | Some t => negb (String.eqb t "")
  | None => false
  end.

(** The value the component returns. *)
Definition render (s : state) : View :=
  if truthy (modelError s) then
    ErrorView (default "" (modelError s))
  else
    match model s with
    | None => LoadingView (loading_text (retryCount s))
    | Some _ => NoView
    end.

(** Once a callback has been called, it is the only call, no load can
    still report and no timer is pending. *)
Definition settled (s : state) : Prop :=
  calls s <> [] ->
  length (calls s) = 1 /\ pending (requests s) = [] /\ timers s = [].

(** The delays scheduled so far are 0, 1000, ... up to some count of at
    most [maxRetries]: the counter while a load can still report, one
    more while a timer is pending. *)
Definition backoff (s : state) : Prop :=
  exists n,
    n <= maxRetries /\
    scheduled s = map (fun k => 1000 * k) (seq 0 n) /\
    (pending (requests s) <> [] -> n = retryCount s) /\
    (timers s <> [] -> n = S (retryCount s)).

(** What the calls made so far say about the state. *)
Definition reported (s : state) : Prop :=
  (calls s = [] -> model s = None /\ modelError s = None) /\
  (forall scene,
     In (OnLoad scene) (calls s) ->
     model s = Some scene /\ modelError s = None) /\
  (forall message,
     In (OnError message) (calls s) ->
     modelError s = Some message /\
     model s = None /\
     retryCount s = maxRetries /\
     scheduled s = [0; 1000; 2000]).

(** Everything that holds of one attempt chain. *)
Definition chain (s : state) : Prop :=
  consistent s /\ settled s /\ backoff s /\ reported s.

(** Every load in flight was started before the next one to start. *)
Definition fresh_ids (s : state) : Prop :=
  Forall (fun r => request_id r < next_request s) (requests s).

(** What the rest of the application can see of a component instance. *)
Definition observable (s : state)
    : list Call * option Three.Object3D * option string * nat * list nat :=
  (calls s, model s, modelError s, retryCount s, scheduled s).

End ModelLoader.

(* ===================================================================== *)
(** ** [ModelContent] *)
(* ===================================================================== *)

Module ModelContent.

Import Three.

(** The component instance: the [model] state, the [materials] side table
    (a [Map] keyed by the identity of the mesh), the shared
    [matteMaterial], and the messages passed to [onError] so far. *)
Record state : Type := mkState {
  model : option Object3D;
  materials : gmap nat MaterialRef;
  matteMaterial : MaterialRef;
  errors : list string
}.

Definition mount (matte : MaterialRef) : state :=
  {| model := None; materials := ∅; matteMaterial := matte; errors := [] |}.

(** The callback [handleModelLoad] passes to [traverse]. *)
Definition record_and_swap (matte : MaterialRef) (obj : Node)
    (table : gmap nat MaterialRef) : Node * gmap nat MaterialRef :=
  match kind obj with
  | Mesh material corners =>
      ({| oid := oid obj; kind := Mesh matte corners;
          position := position obj; linear := linear obj;
          castShadow := true; receiveShadow := true |},
       <[oid obj := material]> table)
  | Group => (obj, table)
  end.

(** [handleModelLoad].  No operation of the model raises, so the [catch]
    branch has no counterpart. *)
Definition handleModelLoad (loadedScene : Object3D) (s : state) : state :=
  let '(swapped, table) :=
    traverse (record_and_swap (matteMaterial s)) loadedScene (materials s) in
  let box := setFromObject swapped in
  let offsetY := (- y_of (min box))%num in
  {| model := Some (add_position_y offsetY swapped);
     materials := table;
     matteMaterial := matteMaterial s;
     errors := errors s |}.

(** The callback [toggleTextures] passes to [traverse]:
    [materials.current.get(obj) || obj.material] is the recorded value
    when there is one. *)
Definition toggle_material (matte : MaterialRef)
    (table : gmap nat MaterialRef) (obj : Node) (u : unit) : Node * unit :=
  match kind obj with
  | Mesh material corners =>
      ({| oid := oid obj;
          kind :=
            Mesh
              (if decide (material = matte)
               then default material (table !! oid obj)
               else matte)
              corners;
          position := position obj; linear := linear obj;
          castShadow := castShadow obj; receiveShadow := receiveShadow obj |},
       u)
  | Group => (obj, u)
  end.

Definition toggleTextures (s : state) : state :=
  match model s with
  | None => s
  | Some m =>
      {| model :=
           Some (fst (traverse (toggle_material (matteMaterial s) (materials s))
                        m tt));
         materials := materials s;
         matteMaterial := matteMaterial s;
         errors := errors s |}
  end.

(** The two halves of [record_and_swap]: what it does to the object and
    what it does to the side table. *)
Definition swap (matte : MaterialRef) (obj : Node) : Node :=
  fst (record_and_swap matte obj ∅).

Definition record (obj : Node) (table : gmap nat MaterialRef)
    : gmap nat MaterialRef :=
  match kind obj with
  | Mesh material _ => <[oid obj := material]> table
  | Group => table
  end.

(** What [toggle_material] does to the object. *)
Definition toggle (matte : MaterialRef) (table : gmap nat MaterialRef)
    (obj : Node) : Node :=
  fst (toggle_material matte table obj tt).

(** A small scene for the examples: a group at height 2 that holds one
    mesh, object 1, whose material is at address 7 and whose bounding
    points have the heights 1 and 3 in the frame of the group. *)
Definition example_mesh : Object3D :=
  Object
    {| oid := 1;
       kind :=
         Mesh (Material 7)
           [ (Fin 0, Fin 1, Fin 0); (Fin 1, Fin 3, Fin 1) ];
       position := (Fin 0, Fin 0, Fin 0);
       linear := fun p => p;
       castShadow := false; receiveShadow := false |}
    [].

Definition example_scene : Object3D :=
  Object
    {| oid := 0;
       kind := Group;
       position := (Fin 0, Fin 2, Fin 0);
       linear := fun p => p;
       castShadow := false; receiveShadow := false |}
    [ example_mesh ].

(** The current material of every mesh of the model, in traversal order
    (nothing while there is no model). *)
Definition current_materials (s : state) : list (nat * MaterialRef) :=
  match model s with
  | None => []
  | Some m => mesh_materials m
  end.

(** Whether an object is a mesh. *)
Definition is_mesh (n : Node) : bool :=
  match kind n with
  | Mesh _ _ => true
  | Group => false
  end.

(** What the cleanup of the model effect releases: the geometry of a
    mesh, or the material a reference stands for (every material of the
    array when it is one). *)
Inductive Disposal : Type :=
| DisposeGeometry (mesh : nat)
| DisposeMaterial (material : MaterialRef).

(** What the cleanup releases for one object: for a mesh its geometry,
    then what the side table holds for it, if anything. *)
Definition disposals (table : gmap nat MaterialRef) (obj : Node)
    : list Disposal :=
  match kind obj with
  | Mesh _ _ =>
      DisposeGeometry (oid obj)
      :: match table !! oid obj with
         | Some material => [DisposeMaterial material]
         | None => []
         end
  | Group => []
  end.

(** The callback the cleanup passes to [traverse]. *)
Definition dispose (table : gmap nat MaterialRef) (obj : Node)
    (released : list Disposal) : Node * list Disposal :=
  (obj, released ++ disposals table obj).

(** The cleanup of the model effect, in the closure of the render whose
    [model] is [captured]: it releases geometries and recorded materials
    and sets the model to [null].  It returns what it released. *)
Definition teardown (captured : option Object3D) (s : state)
    : state * list Disposal :=
  match captured with
  | None => (s, [])
  | Some m =>
      ({| model := None;
          materials := materials s;
          matteMaterial := matteMaterial s;
          errors := errors s |},
       snd (traverse (dispose (materials s)) m []))
  end.

(** Unmounting runs the cleanup of the effect of the last render, which
    captured the model of that render. *)
Definition cleanup_on_unmount (s : state) : state * list Disposal :=
  teardown (model s) s.

(** A change of [url]: the effect depends on [url] and [model].  The
    render with the new [url] still has the model, so the cleanup of the
    previous effect runs and sets the model to [null]; that causes a
    render in which [model] has changed, so the cleanup of the effect the
    first render set up runs as well, and that one captured the same
    model. *)
Definition cleanup_on_url_change (s : state) : state * list Disposal :=
  let '(s1, released1) := teardown (model s) s in
  let '(s2, released2) := teardown (model s) s1 in
  (s2, released1 ++ released2).

(** What releasing every mesh of a freshly loaded scene amounts to. *)
Definition loaded_disposals (scene : Object3D) : list Disposal :=
  flat_map (fun p => [DisposeGeometry (fst p); DisposeMaterial (snd p)])
    (mesh_materials scene).

(** A scene without geometry: a lone group. *)
Definition empty_scene : Object3D :=
  Object
    {| oid := 0;
       kind := Group;
       position := (Fin 0, Fin 0, Fin 0);
       linear := fun p => p;
       castShadow := false; receiveShadow := false |}
    [].

(** A mesh after a load: it carries the matte material and casts and
    receives shadows. *)
Definition prepared (matte : MaterialRef) (n : Node) : Prop :=
  match kind n with
  | Mesh material _ =>
      material = matte /\ castShadow n = true /\ receiveShadow n = true
  | Group => True
  end.

End ModelContent.

(* ===================================================================== *)
(** ** [MovableLight] *)
(* ===================================================================== *)

(** The fields of a [MouseEvent] the handlers read. *)
Record MouseEvent : Type := mkMouseEvent {
  shiftKey : bool;
  altKey : bool;
  clientX : number;
  clientY : number
}.

(** What [MovableLight] holds between two events: the [lightState] state,
    the updaters handed to [setLightState] that React has not run yet
    (each is closed over its [scaledDx] and [scaledDy]), the three refs,
    and the [enabled] flag of the orbit controls stored in
    [scene.userData.controls] ([None] while no controls are stored). *)
Record MovableLight : Type := mkMovableLight {
  lightState : LightState;
  queued : list (number * number);
  isDragging : bool;
  isAdjusting : bool;
  prevPos : number * number;
  controls_enabled : option bool
}.

Definition MovableLight_mount (controls : option bool) : MovableLight :=
  {| lightState := INITIAL_LIGHT_STATE;
     queued := [];
     isDragging := false;
     isAdjusting := false;
     prevPos := (Fin 0, Fin 0);
     controls_enabled := controls |}.

Definition set_controls (v : bool) (c : option bool) : option bool :=
  match c with
  | Some _ => Some v
  | None => None
  end.

Definition handleMouseDown (e : MouseEvent) (s : MovableLight) : MovableLight :=
  if negb (shiftKey e) then s
  else
    {| lightState := lightState s;
       queued := queued s;
       isDragging := if altKey e then isDragging s else true;
       isAdjusting := if altKey e then true else isAdjusting s;
       prevPos := (clientX e, clientY e);
       controls_enabled := set_controls false (controls_enabled s) |}.

(** The updater handed to [setLightState].  [adjusting] is the value of
    [isAdjusting.current] at the time the updater runs. *)
Definition updateLight (adjusting : bool) (scaledDx scaledDy : number)
    (prev : LightState) : LightState :=
  if adjusting then
    let newTemp :=
      Math_max (Fin 2000)
        (Math_min (Fin 10000) (temperature prev + scaledDx * Fin 100)%num) in
    let newInt :=
      Math_max (Fin 0) (Math_min (Fin 6) (intensity prev - scaledDy)%num) in
    {| position := position prev; intensity := newInt; temperature := newTemp |}
  else
    let '(px, py, pz) := position prev in
    {| position := ((px + scaledDx)%num, (py - scaledDy)%num, pz);
       intensity := intensity prev;
       temperature := temperature prev |}.

(** [handleMouseMove] computes the scaled deltas, hands the updater to
    [setLightState], which queues it, and records the pointer position. *)
Definition handleMouseMove (e : MouseEvent) (s : MovableLight) : MovableLight :=
  if negb (isDragging s) && negb (isAdjusting s) then s
  else
    let dx := (clientX e - fst (prevPos s))%num in
    let dy := (clientY e - snd (prevPos s))%num in
    let scaledDx := (dx * Fin 0.05)%num in
    let scaledDy := (dy * Fin 0.05)%num in
    {| lightState := lightState s;
       queued := queued s ++ [(scaledDx, scaledDy)];
       isDragging := isDragging s;
       isAdjusting := isAdjusting s;
       prevPos := (clientX e, clientY e);
       controls_enabled := controls_enabled s |}.

Definition handleMouseUp (s : MovableLight) : MovableLight :=
  {| lightState := lightState s;
     queued := queued s;
     isDragging := false;
     isAdjusting := false;
     prevPos := prevPos s;
     controls_enabled := set_controls true (controls_enabled s) |}.

(** React runs the queued updaters, oldest first; each reads
    [isAdjusting.current] as it is then. *)
Definition runUpdaters (s : MovableLight) : MovableLight :=
  {| lightState :=
       fold_left
         (fun prev u => updateLight (isAdjusting s) (fst u) (snd u) prev)
         (queued s) (lightState s);
     queued := [];
     isDragging := isDragging s;
     isAdjusting := isAdjusting s;
     prevPos := prevPos s;
     controls_enabled := controls_enabled s |}.

(** What reaches a mounted light: the events of the three listeners the
    effect registers, and the moments at which React runs the queued
    updaters, which may be right after a pointer-move or any time later.
    Every order of these is a run of the model. *)
Inductive PointerEvent : Type :=
| MouseDown (e : MouseEvent)
| MouseMove (e : MouseEvent)
| MouseUp
| Render.

Definition handlePointer (s : MovableLight) (ev : PointerEvent) : MovableLight :=
  match ev with
  | MouseDown e => handleMouseDown e s
  | MouseMove e => handleMouseMove e s
  | MouseUp => handleMouseUp s
  | Render => runUpdaters s
  end.

Definition handlePointers (s : MovableLight) (evs : list PointerEvent)
    : MovableLight :=
  fold_left handlePointer evs s.

(** An interaction for the examples: an Adjust drag far out of both
    ranges, a release, and a Reposition drag, with the updaters run at
    various times. *)
Definition example_drag : list PointerEvent :=
  [ MouseDown {| shiftKey := true; altKey := true;
                 clientX := Fin 100; clientY := Fin 100 |};
    MouseMove {| shiftKey := true; altKey := true;
                 clientX := Fin 90000; clientY := Fin (-500) |};
    Render;
    MouseMove {| shiftKey := true; altKey := true;
                 clientX := Fin 10; clientY := Fin 700 |};
    MouseUp;
    MouseDown {| shiftKey := true; altKey := false;
                 clientX := Fin 0; clientY := Fin 0 |};
    Render;
    MouseMove {| shiftKey := false; altKey := false;
                 clientX := Fin 20; clientY := Fin 40 |};
    Render ].



(** An event whose pointer coordinates are finite numbers. *)
Definition finite_pointer (ev : PointerEvent) : Prop :=
  match ev with
  | MouseDown e | MouseMove e => is_finite (clientX e) /\ is_finite (clientY e)
  | MouseUp | Render => True
  end.

(** A pointer-down that the trigger modifier accompanies. *)
Definition is_trigger (ev : PointerEvent) : bool :=
  match ev with
  | MouseDown e => shiftKey e
  | _ => false
  end.

(** A pointer-down that sets [isAdjusting.current]. *)
Definition is_adjust_down (ev : PointerEvent) : bool :=
  match ev with
  | MouseDown e => shiftKey e && altKey e
  | _ => false
  end.

Definition is_up (ev : PointerEvent) : bool :=
  match ev with
  | MouseUp => true
  | _ => false
  end.

(** Neither mode flag is set. *)
Definition idle (s : MovableLight) : Prop :=
  isDragging s = false /\ isAdjusting s = false.

(** The light is within its ranges, and the recorded pointer position and
    the deltas of the queued updaters are finite. *)
Definition light_in_range (s : MovableLight) : Prop :=
  within 2000 10000 (temperature (lightState s)) /\
  within 0 6 (intensity (lightState s)) /\
  is_finite (fst (prevPos s)) /\
  is_finite (snd (prevPos s)) /\
  Forall (fun u => is_finite (fst u) /\ is_finite (snd u)) (queued s).

(* ===================================================================== *)
(** ** [ModelViewer]: saving *)
(* ===================================================================== *)

Module ModelViewer.

(** The state [useState] holds: the error shown, whether a save is under
    way, whether a save has succeeded. *)
Record SaveState : Type := mkSaveState {
  error : option string;
  saving : bool;
  saveSuccess : bool
}.

(** What an awaited call of a server action does: it returns a value or
    it throws one. *)
Inductive Outcome (A : Type) : Type :=
| Returns (a : A)
| Throws (err : ModelLoader.JsValue).

Arguments Returns {A} a.
Arguments Throws {A} err.

(** The props and the state [handleSaveModel] reads.  The two project
    identifiers are [None] for [null] and [undefined]; [onProjectSelect]
    is [None] when the prop is missing, and otherwise what the callback
    does when it is called: it returns or it throws; [now] is the text
    [new Date().toLocaleString()] gives at the time of the call. *)
Record SaveInput : Type := mkSaveInput {
  url : string;
  inputImage : option string;
  resolution : option number;
  selectedProjectId : option string;
  currentProjectId : option string;
  onProjectSelect : option (Outcome unit);
  now : string
}.

(** Whether the [onProjectSelect] prop was given. *)
Definition has_onProjectSelect (i : SaveInput) : bool :=
  match onProjectSelect i with
  | Some _ => true
  | None => false
  end.

(** What the server answers: whether [checkModelExists] reports the
    model, whether the result of [saveModelToProject] is truthy, and
    whether [saveModelToDatabase] returns. *)
Record ServerAnswers : Type := mkServerAnswers {
  exists_answer : Outcome bool;
  project_answer : Outcome bool;
  database_answer : Outcome unit
}.

(** What the handler does to the outside: the server actions it calls,
    the notifications it shows, the callback it calls. *)
Inductive Effect : Type :=
| CheckModelExists (url : string) (project : option string)
| SaveModelToProject (project url inputImage thumbnail : string)
    (resolution : number) (name : string)
| SaveModelToDatabase (url inputImage : string) (resolution : number)
| ToastInfo (text : string)
| ToastSuccess (text : string)
| ToastError (text : string)
| ProjectSelected (project : string).

(** A string or a number in a condition. *)
Definition string_truthy (t : string) : bool := negb (String.eqb t "").

Definition number_truthy (n : number) : bool :=
  match n with
  | NaN => false
  | Fin r => if Req_dec_T r 0 then false else true
  | NegInf | PosInf => true
  end.

(** [selectedProjectId || null]. *)
Definition project_or_null (i : SaveInput) : option string :=
  match selectedProjectId i with
  | Some project => if string_truthy project then Some project else None
  | None => None
  end.

(** [err instanceof Error ? err.message : "Save failed"]. *)
Definition save_error_message (err : ModelLoader.JsValue) : string :=
  match err with
  | ModelLoader.ErrorInstance message => message
  | ModelLoader.OtherValue _ => "Save failed"
  end.

Definition set_saved (st : SaveState) : SaveState :=
  {| error := error st; saving := saving st; saveSuccess := true |}.

Definition set_error (text : string) (st : SaveState) : SaveState :=
  {| error := Some text; saving := saving st; saveSuccess := saveSuccess st |}.

Definition set_saving (b : bool) (st : SaveState) : SaveState :=
  {| error := error st; saving := b; saveSuccess := saveSuccess st |}.

(** The [try] block: the state it leaves, what it did, and the value
    thrown if an awaited call or the callback threw.  The callback is
    called after the success notification, inside the [try], so what it
    throws reaches the [catch] clause.  The calls of the notification
    library are taken to return. *)
Definition try_block (i : SaveInput) (image : string) (res : number)
    (a : ServerAnswers) (st : SaveState)
    : SaveState * list Effect * option ModelLoader.JsValue :=
  let check := CheckModelExists (url i) (project_or_null i) in
  match exists_answer a with
  | Throws err => (st, [check], Some err)
  | Returns true =>
      (set_saved (set_saving false st),
       [check; ToastInfo "This model is already saved"], None)
  | Returns false =>
      match project_or_null i with
      | Some project =>
          let save :=
            SaveModelToProject project (url i) image image res
              ("Model " ++ now i) in
          match project_answer a with
          | Throws err => (st, [check; save], Some err)
          | Returns true =>
              let saved :=
                [check; save;
                 ToastSuccess "Model saved to project successfully"] in
              match onProjectSelect i with
              | Some callback =>
                  if bool_decide (Some project <> currentProjectId i) then
                    (set_saved st, saved ++ [ProjectSelected project],
                     match callback with
                     | Returns _ => None
                     | Throws err => Some err
                     end)
                  else (set_saved st, saved, None)
              | None => (set_saved st, saved, None)
              end
          | Returns false =>
              (set_error "Failed to save model to project" st,
               [check; save; ToastError "Failed to save model to project"],
               None)
          end
      | None =>
          let save := SaveModelToDatabase (url i) image res in
          match database_answer a with
          | Throws err => (st, [check; save], Some err)
          | Returns _ =>
              (set_saved st,
               [check; save; ToastSuccess "Model saved successfully"], None)
          end
      end
  end.

(** [handleSaveModel]: the guard, the first state update, the [try]
    block, the [catch] clause when a value was thrown, and the [finally]
    clause. *)
Definition handleSaveModel (i : SaveInput) (a : ServerAnswers)
    (st : SaveState) : SaveState * list Effect :=
  match inputImage i, resolution i with
  | Some image, Some res =>
      if string_truthy (url i) && string_truthy image && number_truthy res
      then
        let started :=
          {| error := None; saving := true; saveSuccess := saveSuccess st |} in
        let '(tried, effects, thrown) := try_block i image res a started in
        match thrown with
        | Some err =>
            (set_saving false (set_error (save_error_message err) tried),
             effects ++ [ToastError "Failed to save model"])
        | None => (set_saving false tried, effects)
        end
      else (st, [])
  | _, _ => (st, [])
  end.

(** The guard at the head of [handleSaveModel]. *)
Definition guard (i : SaveInput) : bool :=
  match inputImage i, resolution i with
  | Some image, Some res =>
      string_truthy (url i) && string_truthy image && number_truthy res
  | _, _ => false
  end.

Definition is_toast (e : Effect) : bool :=
  match e with
  | ToastInfo _ | ToastSuccess _ | ToastError _ => true
  | _ => false
  end.

Definition is_save (e : Effect) : bool :=
  match e with
  | SaveModelToProject _ _ _ _ _ _ | SaveModelToDatabase _ _ _ => true
  | _ => false
  end.

Definition is_error_toast (e : Effect) : bool :=
  match e with
  | ToastError _ => true
  | _ => false
  end.

(** An input and answers for the examples. *)
Definition example_input : SaveInput :=
  {| url := "https://models/a.glb";
     inputImage := Some "https://images/a.png";
     resolution := Some (Fin 256);
     selectedProjectId := Some "p1";
     currentProjectId := None;
     onProjectSelect := Some (Returns tt);
     now := "1/1/2025, 10:00:00" |}.

(** The same input with a callback that throws. *)
Definition throwing_input : SaveInput :=
  {| url := url example_input;
     inputImage := inputImage example_input;
     resolution := resolution example_input;
     selectedProjectId := selectedProjectId example_input;
     currentProjectId := currentProjectId example_input;
     onProjectSelect := Some (Throws (ModelLoader.ErrorInstance "no such project"));
     now := now example_input |}.

Definition example_answers : ServerAnswers :=
  {| exists_answer := Returns false;
     project_answer := Returns true;
     database_answer := Returns tt |}.

End ModelViewer.

(* ===================================================================== *)
(** ** [tempToColor] *)
(* ===================================================================== *)

(** [tempToColor].  The source interpolates the three channels into the
    text [rgb(red, green, blue)]; the model returns the three values. *)
Definition tempToColor (kelvin : number) : number * number * number :=
  let kelvin := (kelvin / Fin 100)%num in
  if (kelvin <=? Fin 66)%num then
    let red := Fin 255 in
    let green :=
      Math_min (Fin 255)
        (Math_max (Fin 0)
           (Fin 99.4708025861 * Math_log kelvin - Fin 161.1195681661)%num) in
    let blue :=
      if (kelvin <=? Fin 19)%num then Fin 0
      else
        Math_min (Fin 255)
          (Math_max (Fin 0)
             (Fin 138.5177312231 * Math_log (kelvin - Fin 10)
              - Fin 305.0447927307)%num) in
    (red, green, blue)
  else
    let red :=
      Math_min (Fin 255)
        (Math_max (Fin 0)
           (Fin 329.698727446
            * Math_pow (kelvin - Fin 60) (Fin (-0.1332047592)))%num) in
    let green :=
      Math_min (Fin 255)
        (Math_max (Fin 0)
           (Fin 288.1221695283
            * Math_pow (kelvin - Fin 60) (Fin (-0.0755148492)))%num) in
    let blue := Fin 255 in
    (red, green, blue).

(** The piecewise black-body approximation in the words of the
    specification, as a relation between the internal value [v] and the
    three channels. *)
Definition blackbody_piecewise (v : number) (rgb : number * number * number)
    : Prop :=
  let '(red, green, blue) := rgb in
  ((v <=? Fin 66)%num = true ->
     red = Fin 255 /\
     green =
       clamp (Fin 99.4708025861 * Math_log v - Fin 161.1195681661)%num
         (Fin 0) (Fin 255) /\
     blue =
       (if (v <=? Fin 19)%num then Fin 0
        else
          clamp (Fin 138.5177312231 * Math_log (v - Fin 10)
                 - Fin 305.0447927307)%num
            (Fin 0) (Fin 255)))
  /\
  ((Fin 66 <? v)%num = true ->
     red =
       clamp (Fin 329.698727446
              * Math_pow (v - Fin 60) (Fin (-0.1332047592)))%num
         (Fin 0) (Fin 255) /\
     green =
       clamp (Fin 288.1221695283
              * Math_pow (v - Fin 60) (Fin (-0.0755148492)))%num
         (Fin 0) (Fin 255) /\
     blue = Fin 255).

(* ===================================================================== *)
(** ** The ground alignment in binary64 *)
(* ===================================================================== *)

(** The arithmetic of the ground alignment of [handleModelLoad] as the
    code runs it, in binary64, for the vertical coordinate of a graph
    that is one mesh without rotation or scale: [py] is [position.y] of
    the mesh and [ys] are the heights of the corners of the bounding box
    of its geometry, in its own frame. *)
Module Float64.

Import PrimFloat.
Local Open Scope float_scope.

(** [Math.min]: [NaN] as soon as an argument is, and the negative zero
    below the positive one. *)
Definition Math_min (a b : float) : float :=
  if is_nan a || is_nan b then nan
  else if b <? a then b
  else if a <? b then a
  else if get_sign a then a else b.





End Float64.

(* ===================================================================== *)
(** * Properties *)
(* ===================================================================== *)

(** ** Numbers: comparisons, [Math.min], [Math.max] and [clamp] *)

Section NumberFacts.

Local Open Scope R_scope.

Lemma leb_Fin (x y : R) : leb (Fin x) (Fin y) = true <-> x <= y.
Proof.
  unfold leb. destruct (Rle_dec x y); split; intros; try easy; lra.
Qed.

Lemma ltb_Fin (x y : R) : ltb (Fin x) (Fin y) = true <-> x < y.
Proof.
  unfold ltb. destruct (Rlt_dec x y); split; intros; try easy; lra.
Qed.

Lemma leb_Fin_false (x y : R) : leb (Fin x) (Fin y) = false <-> y < x.
Proof.
  unfold leb. destruct (Rle_dec x y); split; intros; try easy; lra.
Qed.

(** The two branches of a test [v <= c] and the test [c < v] never hold
    together. *)
Lemma leb_ltb_exclusive (v c : number) :
  leb v c = true -> ltb c v = true -> False.
Proof.
  destruct v, c; simpl; try discriminate.
  destruct (Rle_dec r r0), (Rlt_dec r0 r); try discriminate. lra.
Qed.

(** A bounded range [lo, hi]: [Math.min(hi, Math.max(lo, x))], the form
    [tempToColor] uses, is [clamp]. *)
Lemma min_max_is_clamp (x : number) (lo hi : R) :
  lo <= hi -> Math_min (Fin hi) (Math_max (Fin lo) x) = clamp x (Fin lo) (Fin hi).
Proof.
  intros Hle. unfold clamp, ltb.
  destruct x as [ | | r | ]; simpl.
  - reflexivity.
  - f_equal. unfold Rmin. destruct (Rle_dec hi lo); lra.
  - unfold Rmin, Rmax.
    destruct (Rlt_dec r lo), (Rlt_dec hi r), (Rle_dec lo r);
      try destruct (Rle_dec hi lo); try destruct (Rle_dec hi r);
      f_equal; lra.
  - reflexivity.
Qed.

(** [Math.max(lo, Math.min(hi, x))], the form [handleMouseMove] uses, is
    [clamp] as well. *)
Lemma max_min_is_clamp (x : number) (lo hi : R) :
  lo <= hi -> Math_max (Fin lo) (Math_min (Fin hi) x) = clamp x (Fin lo) (Fin hi).
Proof.
  intros Hle. unfold clamp, ltb.
  destruct x as [ | | r | ]; simpl.
  - reflexivity.
  - reflexivity.
  - unfold Rmin, Rmax.
    destruct (Rlt_dec r lo), (Rlt_dec hi r), (Rle_dec hi r);
      try destruct (Rle_dec lo hi); try destruct (Rle_dec lo r);
      f_equal; lra.
  - f_equal. unfold Rmax. destruct (Rle_dec lo hi); lra.
Qed.

(** A clamped value that is not [NaN] lies between the bounds. *)
Lemma clamp_within (x : number) (lo hi : R) :
  lo <= hi -> x <> NaN -> within lo hi (clamp x (Fin lo) (Fin hi)).
Proof.
  intros Hle Hx. unfold clamp, within, ltb.
  destruct x as [ | | r | ]; simpl.
  - congruence.
  - exists lo. split; [reflexivity | lra].
  - destruct (Rlt_dec r lo).
    + exists lo. split; [reflexivity | lra].
    + destruct (Rlt_dec hi r).
      * exists hi. split; [reflexivity | lra].
      * exists r. split; [reflexivity | lra].
  - exists hi. split; [reflexivity | lra].
Qed.

Lemma div_Fin (x y : R) : y <> 0 -> div (Fin x) (Fin y) = Fin (x / y).
Proof.
  intros Hy. simpl. destruct (Req_dec_T y 0); [contradiction | reflexivity].
Qed.

Lemma Math_log_pos (r : R) : 0 < r -> Math_log (Fin r) = Fin (ln r).
Proof.
  intros Hr. simpl. destruct (total_order_T 0 r) as [[?|?]|?];
    [reflexivity | lra | lra].
Qed.

Lemma Math_pow_pos (b e : R) :
  0 < b -> e <> 0 -> Math_pow (Fin b) (Fin e) = Fin (Rpower b e).
Proof.
  intros Hb He. simpl. destruct (Req_dec_T e 0); [contradiction |].
  destruct (total_order_T 0 b) as [[?|?]|?]; [reflexivity | lra | lra].
Qed.

End NumberFacts.

(** ** [tempToColor] *)

Section TempToColor.

Local Open Scope R_scope.

(** C1.  For every input temperature, the channels [tempToColor] computes
    are those of the piecewise black-body approximation at the internal
    value [v = kelvin / 100]: for [v <= 66], red 255, green
    [clamp(99.4708025861 ln v - 161.1195681661, 0, 255)] and blue 0 when
    [v <= 19] and [clamp(138.5177312231 ln (v - 10) - 305.0447927307, 0,
    255)] otherwise; for [v > 66], red
    [clamp(329.698727446 (v - 60)^(-0.1332047592), 0, 255)], green
    [clamp(288.1221695283 (v - 60)^(-0.0755148492), 0, 255)] and blue
    255. *)
Theorem tempToColor_is_blackbody_piecewise (kelvin : number) :
  blackbody_piecewise (div kelvin (Fin 100)) (tempToColor kelvin).
Proof.
  unfold blackbody_piecewise, tempToColor.
  set (v := div kelvin (Fin 100)).
  destruct (leb v (Fin 66)) eqn:Hsplit.
  - split.
    + intros _. repeat split.
      * apply min_max_is_clamp. lra.
      * destruct (leb v (Fin 19)); [reflexivity |].
        apply min_max_is_clamp. lra.
    + intros Hgt. exfalso. exact (leb_ltb_exclusive _ _ Hsplit Hgt).
  - split.
    + intros Hle. discriminate Hle.
    + intros _. repeat split; apply min_max_is_clamp; lra.
Qed.

(** C8.  For every temperature between 2000 and 10000 Kelvin, each of
    the three channels [tempToColor] computes is a finite value between 0
    and 255. *)
Theorem tempToColor_channels_in_range (kelvin : number) :
  leb (Fin 2000) kelvin = true ->
  leb kelvin (Fin 10000) = true ->
  let '(red, green, blue) := tempToColor kelvin in
  within 0 255 red /\ within 0 255 green /\ within 0 255 blue.
Proof.
  intros Hlo Hhi.
  destruct kelvin as [ | | k | ]; simpl in Hlo, Hhi; try discriminate.
  apply leb_Fin in Hlo. apply leb_Fin in Hhi.
  assert (Hfull : within 0 255 (Fin 255)) by (exists 255; split; [reflexivity | lra]).
  assert (Hzero : within 0 255 (Fin 0)) by (exists 0; split; [reflexivity | lra]).
  unfold tempToColor. rewrite div_Fin by lra.
  set (v := k / 100).
  assert (Hv : 20 <= v <= 100) by (unfold v; lra).
  destruct (leb (Fin v) (Fin 66)) eqn:Hsplit.
  - repeat split; [exact Hfull | |].
    + rewrite min_max_is_clamp by lra. apply clamp_within; [lra |].
      rewrite Math_log_pos by lra. simpl. congruence.
    + destruct (leb (Fin v) (Fin 19)); [exact Hzero |].
      rewrite min_max_is_clamp by lra. apply clamp_within; [lra |].
      unfold sub at 2. simpl neg. simpl add.
      rewrite Math_log_pos by lra. simpl. congruence.
  - apply leb_Fin_false in Hsplit.
    repeat split; [| | exact Hfull].
    + rewrite min_max_is_clamp by lra. apply clamp_within; [lra |].
      unfold sub. simpl neg. simpl add.
      rewrite Math_pow_pos by lra. simpl. congruence.
    + rewrite min_max_is_clamp by lra. apply clamp_within; [lra |].
      unfold sub. simpl neg. simpl add.
      rewrite Math_pow_pos by lra. simpl. congruence.
Qed.

Lemma tempToColor_channels_in_range_witness :
  let '(red, green, blue) := tempToColor (Fin 6500) in
  within 0 255 red /\ within 0 255 green /\ within 0 255 blue.
Proof.
  apply (tempToColor_channels_in_range (Fin 6500)).
  - apply leb_Fin. lra.
  - apply leb_Fin. lra.
Defined.

(** Below the range the bound can fail: at -100 Kelvin the logarithm has
    no value and the green channel is [NaN]. *)
Lemma tempToColor_green_NaN_below_zero :
  snd (fst (tempToColor (Fin (-100)))) = NaN.
Proof.
  unfold tempToColor. rewrite div_Fin by lra.
  assert (H66 : leb (Fin (-100 / 100)) (Fin 66) = true) by (apply leb_Fin; lra).
  rewrite H66. simpl.
  destruct (total_order_T 0 (-100 / 100)) as [[?|?]|?]; try lra.
  reflexivity.
Qed.

End TempToColor.

(** ** [MovableLight] *)

Section MovableLightFacts.

Local Open Scope R_scope.

(** Pointer-down with both modifiers held enters Adjust mode: it sets
    [isAdjusting], records the pointer position and leaves the light as it
    is. *)
Lemma mouse_down_enters_adjust (e : MouseEvent) (s : MovableLight) :
  shiftKey e = true -> altKey e = true ->
  isAdjusting (handleMouseDown e s) = true /\
  prevPos (handleMouseDown e s) = (clientX e, clientY e) /\
  lightState (handleMouseDown e s) = lightState s.
Proof.
  intros Hshift Halt. unfold handleMouseDown. rewrite Hshift, Halt. simpl.
  repeat split.
Qed.

(** Without the trigger modifier pointer-down does nothing. *)
Lemma mouse_down_without_shift (e : MouseEvent) (s : MovableLight) :
  shiftKey e = false -> handleMouseDown e s = s.
Proof. intros H. unfold handleMouseDown. rewrite H. reflexivity. Qed.



(** The same move in Reposition mode changes the position only. *)
Lemma reposition_mode_pointer_move (s : MovableLight) (e : MouseEvent) :
  isDragging s = true -> isAdjusting s = false -> queued s = [] ->
  lightState (runUpdaters (handleMouseMove e s)) =
    let '(px, py, pz) := position (lightState s) in
    {| position :=
         (add px (mul (sub (clientX e) (fst (prevPos s))) (Fin 0.05)),
          sub py (mul (sub (clientY e) (snd (prevPos s))) (Fin 0.05)),
          pz);
       intensity := intensity (lightState s);
       temperature := temperature (lightState s) |}.
Proof.
  intros Hdrag Hadj Hq. unfold runUpdaters, handleMouseMove.
  rewrite Hdrag, Hadj. cbn [negb andb lightState queued isAdjusting].
  rewrite Hq. cbn [app fold_left fst snd updateLight].
  destruct (position (lightState s)) as [[px py] pz]. reflexivity.
Qed.


End MovableLightFacts.

Section Binary64.

Import PrimFloat.
Local Open Scope float_scope.

(** The arithmetic of the example of C7 in binary64 itself: the products
    and sums of the Adjust branch round to exactly 6550 and 2, which lie
    inside the two ranges, and those of the other branch to exactly 2.5
    and 3. *)
#[warnings="-inexact-float"]
Lemma adjust_example_binary64 :
  (6500 + 10 * 0.05 * 100 =? 6550) = true /\ (1 - -20 * 0.05 =? 2) = true /\
  (2 + 10 * 0.05 =? 2.5) = true /\ (2 - -20 * 0.05 =? 3) = true.
Proof. repeat split; vm_compute; reflexivity. Qed.

End Binary64.

(** ** [ModelLoader] *)

Section ModelLoaderFacts.

Import ModelLoader.

Lemma find_request_In (id : nat) (l : list Request) (r : Request) :
  find_request id l = Some r -> In r l.
Proof. unfold find_request. intros H. apply find_some in H. tauto. Qed.

Lemma pending_In (l : list Request) (r : Request) :
  In r l -> canceled r = false -> In r (pending l).
Proof.
  intros Hin Hc. unfold pending. apply filter_In. split; [exact Hin |].
  rewrite Hc. reflexivity.
Qed.

(** Completing a load that could still report leaves one fewer of them. *)
Lemma pending_remove_found (id : nat) (l : list Request) (r : Request) :
  find_request id l = Some r -> canceled r = false ->
  length (pending l) = S (length (pending (remove_request id l))).
Proof.
  unfold find_request. induction l as [| a l IH]; simpl; [discriminate |].
  intros Hfind Hc. destruct (Nat.eqb (request_id a) id).
  - injection Hfind as ->. rewrite Hc. reflexivity.
  - simpl. destruct (negb (canceled a)); simpl; rewrite (IH Hfind Hc); reflexivity.
Qed.

Lemma pending_remove_incl (id : nat) (l : list Request) :
  incl (pending (remove_request id l)) (pending l).
Proof.
  induction l as [| a l IH]; simpl; [apply incl_refl |].
  destruct (Nat.eqb (request_id a) id).
  - destruct (negb (canceled a)); [apply incl_tl |]; apply incl_refl.
  - simpl. destruct (negb (canceled a)); [| exact IH].
    apply incl_cons; [left; reflexivity | apply incl_tl; exact IH].
Qed.

Lemma pending_remove_length (id : nat) (l : list Request) :
  length (pending (remove_request id l)) <= length (pending l).
Proof.
  induction l as [| a l IH]; simpl; [lia |].
  destruct (Nat.eqb (request_id a) id).
  - destruct (negb (canceled a)); simpl; lia.
  - simpl. destruct (negb (canceled a)); simpl; lia.
Qed.

Lemma pending_remove_nil (id : nat) (l : list Request) :
  pending l = [] -> pending (remove_request id l) = [].
Proof.
  intros H. pose proof (pending_remove_length id l) as Hlen.
  rewrite H in Hlen. simpl in Hlen.
  destruct (pending (remove_request id l)); [reflexivity | simpl in Hlen; lia].
Qed.

(** The cleanup cancels; it never revives a load. *)
Lemma cancel_cases (id : nat) (r : Request) :
  cancel id r = r \/ canceled (cancel id r) = true.
Proof.
  unfold cancel. destruct (Nat.eqb (request_id r) id); [right | left];
    reflexivity.
Qed.

Lemma pending_cancel_incl (id : nat) (l : list Request) :
  incl (pending (map (cancel id) l)) (pending l).
Proof.
  induction l as [| a l IH]; simpl; [apply incl_refl |].
  destruct (cancel_cases id a) as [-> | ->]; simpl.
  - destruct (negb (canceled a)); [| exact IH].
    apply incl_cons; [left; reflexivity | apply incl_tl; exact IH].
  - destruct (negb (canceled a)); [apply incl_tl |]; exact IH.
Qed.

Lemma pending_cancel_length (id : nat) (l : list Request) :
  length (pending (map (cancel id) l)) <= length (pending l).
Proof.
  induction l as [| a l IH]; simpl; [lia |].
  destruct (cancel_cases id a) as [-> | ->]; simpl.
  - destruct (negb (canceled a)); simpl; lia.
  - destruct (negb (canceled a)); simpl; lia.
Qed.

Lemma pending_cancel_nil (id : nat) (l : list Request) :
  pending l = [] -> pending (map (cancel id) l) = [].
Proof.
  intros H. pose proof (pending_cancel_length id l) as Hlen.
  rewrite H in Hlen. simpl in Hlen.
  destruct (pending (map (cancel id) l)); [reflexivity | simpl in Hlen; lia].
Qed.

(** The cleanup of the run a load belongs to cancels that load. *)
Lemma pending_cancel_live (id : nat) (l : list Request) :
  Forall (fun r => request_id r = id) (pending l) ->
  pending (map (cancel id) l) = [].
Proof.
  induction l as [| a l IH]; simpl; [reflexivity |].
  intros H. destruct (canceled a) eqn:Hc; simpl in H.
  - destruct (cancel_cases id a) as [-> | ->]; simpl;
      [rewrite Hc; simpl |]; apply IH; exact H.
  - inversion H as [| ? ? Hid Hrest]; subst.
    unfold cancel at 1. rewrite Nat.eqb_refl. simpl. apply IH. exact Hrest.
Qed.

Lemma pending_app (l1 l2 : list Request) :
  pending (l1 ++ l2) = pending l1 ++ pending l2.
Proof. unfold pending. apply List.filter_app. Qed.

Lemma find_timer_single (id : nat) (l : list Timer) (t : Timer) :
  length l <= 1 -> find_timer id l = Some t -> remove_timer id l = [].
Proof.
  destruct l as [| a [| b l]]; simpl; try discriminate; try lia.
  intros _. destruct (Nat.eqb (timer_id a) id); [reflexivity | discriminate].
Qed.

Lemma find_timer_nonempty (id : nat) (l : list Timer) (t : Timer) :
  find_timer id l = Some t -> l <> [].
Proof. destruct l; simpl; [discriminate | congruence]. Qed.

(** *** The counter stays within its bound while the [url] is the same *)

Lemma mount_consistent (u : string) : consistent (mount u).
Proof.
  unfold consistent, mount, run_effect, maxRetries. simpl.
  repeat split; try lia; try congruence.
  repeat constructor.
Qed.

Lemma cleanup_consistent (s : state) : consistent s -> consistent (cleanup s).
Proof.
  unfold cleanup. destruct (live s) as [id |]; [| tauto].
  intros (Hrc & Hlen & Htimer & Hone & Hcount). unfold consistent. simpl.
  repeat split.
  - exact Hrc.
  - exact Hlen.
  - apply Htimer. assumption.
  - apply pending_cancel_nil. apply Htimer. assumption.
  - pose proof (pending_cancel_length id (requests s)). lia.
  - apply List.Forall_forall. intros r Hr.
    rewrite List.Forall_forall in Hcount. apply Hcount.
    apply (pending_cancel_incl id). exact Hr.
Qed.

Lemma unmount_consistent (s : state) : consistent s -> consistent (unmount s).
Proof.
  intros H. unfold unmount. destruct (mounted s); [| exact H].
  apply cleanup_consistent in H. exact H.
Qed.

Lemma on_success_consistent (id : nat) (r : Request) (scene : Three.Object3D)
    (s : state) :
  consistent s ->
  consistent (on_success r scene (with_requests (remove_request id (requests s)) s)).
Proof.
  intros (Hrc & Hlen & Htimer & Hone & Hcount).
  assert (Hbase : consistent (with_requests (remove_request id (requests s)) s)).
  { unfold consistent. simpl. repeat split.
    - exact Hrc.
    - exact Hlen.
    - apply Htimer. assumption.
    - apply pending_remove_nil. apply Htimer. assumption.
    - pose proof (pending_remove_length id (requests s)). lia.
    - apply List.Forall_forall. intros r' Hr'.
      rewrite List.Forall_forall in Hcount. apply Hcount.
      apply (pending_remove_incl id). exact Hr'. }
  unfold on_success. destruct (canceled r); [exact Hbase | exact Hbase].
Qed.

Lemma on_failure_consistent (id : nat) (r : Request) (err : JsValue)
    (s : state) :
  find_request id (requests s) = Some r ->
  consistent s ->
  consistent (on_failure r err (with_requests (remove_request id (requests s)) s)).
Proof.
  intros Hfind (Hrc & Hlen & Htimer & Hone & Hcount).
  assert (Hbase : consistent (with_requests (remove_request id (requests s)) s)).
  { unfold consistent. simpl. repeat split.
    - exact Hrc.
    - exact Hlen.
    - apply Htimer. assumption.
    - apply pending_remove_nil. apply Htimer. assumption.
    - pose proof (pending_remove_length id (requests s)). lia.
    - apply List.Forall_forall. intros r' Hr'.
      rewrite List.Forall_forall in Hcount. apply Hcount.
      apply (pending_remove_incl id). exact Hr'. }
  unfold on_failure. destruct (canceled r) eqn:Hc; [exact Hbase |].
  destruct (Nat.ltb (request_retryCount r) maxRetries) eqn:Hlt;
    [| exact Hbase].
  apply Nat.ltb_lt in Hlt.
  pose proof (pending_In _ _ (find_request_In _ _ _ Hfind) Hc) as Hin.
  assert (Hnone : timers s = []).
  { destruct (timers s) as [| t l] eqn:Ht; [reflexivity |].
    destruct Htimer as [_ Hnil]; [congruence |].
    rewrite Hnil in Hin. destruct Hin. }
  assert (Hr : request_retryCount r = retryCount s).
  { rewrite List.Forall_forall in Hcount. apply Hcount. exact Hin. }
  assert (Hrest : pending (remove_request id (requests s)) = []).
  { pose proof (pending_remove_found _ _ _ Hfind Hc) as Hlen'.
    destruct (pending (remove_request id (requests s))); [reflexivity |].
    simpl in Hlen'. lia. }
  unfold consistent. simpl. rewrite Hnone, Hrest. simpl.
  repeat split; try lia. constructor.
Qed.

Lemma on_timer_consistent (id : nat) (t : Timer) (s : state) :
  find_timer id (timers s) = Some t ->
  consistent s ->
  consistent (on_timer (with_timers (remove_timer id (timers s)) s)).
Proof.
  intros Hfind (Hrc & Hlen & Htimer & Hone & Hcount).
  destruct Htimer as [Hlt Hnil]; [exact (find_timer_nonempty _ _ _ Hfind) |].
  pose proof (find_timer_single _ _ _ Hlen Hfind) as Hgone.
  unfold on_timer. simpl. destruct (mounted s).
  - unfold rerun_effect, run_effect, cleanup. simpl.
    destruct (live s) as [l |]; unfold consistent; simpl;
      rewrite Hgone, pending_app; simpl;
      [rewrite (pending_cancel_nil l _ Hnil) | rewrite Hnil]; simpl;
      (repeat split; try lia; try congruence; repeat constructor).
  - unfold consistent. simpl. rewrite Hgone, Hnil. simpl.
    repeat split; try lia; try congruence.
Qed.

Lemma step_consistent (s : state) (e : event) :
  is_url_change e = false -> consistent s -> consistent (step s e).
Proof.
  intros He Hs. destruct e as [id scene | id err | id | u |]; simpl.
  - destruct (find_request id (requests s)) as [r |] eqn:Hfind; [| exact Hs].
    apply on_success_consistent. exact Hs.
  - destruct (find_request id (requests s)) as [r |] eqn:Hfind; [| exact Hs].
    apply on_failure_consistent; assumption.
  - destruct (find_timer id (timers s)) as [t |] eqn:Hfind; [| exact Hs].
    apply (on_timer_consistent id t); assumption.
  - discriminate He.
  - apply unmount_consistent. exact Hs.
Qed.

Lemma run_consistent (trace : list event) (s : state) :
  forallb (fun e => negb (is_url_change e)) trace = true ->
  consistent s -> consistent (run s trace).
Proof.
  revert s. induction trace as [| e trace IH]; intros s Hall Hs; simpl.
  - exact Hs.
  - simpl in Hall. apply andb_prop in Hall as [He Hall].
    apply IH; [exact Hall |]. apply step_consistent; [| exact Hs].
    destruct (is_url_change e); [discriminate | reflexivity].
Qed.

(** A new [url] leaves the counter as it is. *)
Lemma set_url_retryCount (u : string) (s : state) :
  retryCount (set_url u s) = retryCount s.
Proof.
  unfold set_url. destruct (mounted s && negb (String.eqb u (url s)));
    [| reflexivity].
  unfold rerun_effect, run_effect, cleanup. simpl.
  destruct (live s); reflexivity.
Qed.

(** *** Loads of an earlier run of the effect cannot report *)

Lemma cleanup_pending_nil (s : state) :
  Forall (fun r => live s = Some (request_id r)) (pending (requests s)) ->
  pending (requests (cleanup s)) = [].
Proof.
  intros H. unfold cleanup. destruct (live s) as [id |] eqn:Hlive; simpl.
  - apply pending_cancel_live.
    eapply List.Forall_impl; [| exact H]. simpl. intros r Hr. congruence.
  - destruct (pending (requests s)); [reflexivity |].
    inversion H; discriminate.
Qed.

Lemma live_only_ids (s : state) :
  live_only s ->
  Forall (fun r => live s = Some (request_id r)) (pending (requests s)).
Proof.
  unfold live_only. intros H. eapply List.Forall_impl; [| exact H].
  simpl. tauto.
Qed.

Lemma rerun_effect_live_only (s : state) :
  Forall (fun r => live s = Some (request_id r)) (pending (requests s)) ->
  live_only (rerun_effect s).
Proof.
  intros H. pose proof (cleanup_pending_nil s H) as Hnil.
  unfold rerun_effect, run_effect, live_only. simpl.
  rewrite pending_app, Hnil. simpl. repeat constructor.
Qed.

Lemma mount_live_only (u : string) : live_only (mount u).
Proof. unfold live_only, mount, run_effect. simpl. repeat constructor. Qed.

Lemma remove_live_only (id : nat) (s : state) :
  live_only s -> live_only (with_requests (remove_request id (requests s)) s).
Proof.
  unfold live_only. simpl. intros H.
  apply List.Forall_forall. intros r Hr.
  rewrite List.Forall_forall in H. apply H.
  apply (pending_remove_incl id). exact Hr.
Qed.

Lemma step_live_only (s : state) (e : event) :
  live_only s -> live_only (step s e).
Proof.
  intros Hs. destruct e as [id scene | id err | id | u |]; simpl.
  - destruct (find_request id (requests s)) as [r |]; [| exact Hs].
    apply (remove_live_only id) in Hs.
    unfold on_success. destruct (canceled r); exact Hs.
  - destruct (find_request id (requests s)) as [r |]; [| exact Hs].
    apply (remove_live_only id) in Hs.
    unfold on_failure. destruct (canceled r); [exact Hs |].
    destruct (Nat.ltb (request_retryCount r) maxRetries); exact Hs.
  - destruct (find_timer id (timers s)) as [t |]; [| exact Hs].
    unfold on_timer. simpl. destruct (mounted s); [| exact Hs].
    apply rerun_effect_live_only. simpl. apply live_only_ids. exact Hs.
  - unfold set_url. destruct (mounted s && negb (String.eqb u (url s)));
      [| exact Hs].
    apply rerun_effect_live_only. simpl. apply live_only_ids. exact Hs.
  - unfold unmount. destruct (mounted s); [| exact Hs].
    unfold live_only. simpl.
    rewrite (cleanup_pending_nil s (live_only_ids s Hs)). constructor.
Qed.

Lemma run_live_only (trace : list event) (s : state) :
  live_only s -> live_only (run s trace).
Proof.
  revert s. induction trace as [| e trace IH]; intros s Hs; simpl.
  - exact Hs.
  - apply IH. apply step_live_only. exact Hs.
Qed.

(** X11.  Whatever has happened to a component instance, a load started
    for an earlier [url] has been canceled: when it completes, one way or
    the other, it only leaves the loads in flight; neither the model nor
    the error nor any callback sees its result. *)
Lemma stale_load_result_not_applied (u : string) (trace : list event)
    (id : nat) (r : Request) :
  let s := run (mount u) trace in
  find_request id (requests s) = Some r ->
  request_url r <> url s ->
  (forall scene,
     step s (LoadSucceeded id scene)
     = with_requests (remove_request id (requests s)) s) /\
  (forall err,
     step s (LoadFailed id err)
     = with_requests (remove_request id (requests s)) s).
Proof.
  intros s Hfind Hurl.
  assert (Hc : canceled r = true).
  { destruct (canceled r) eqn:Hc; [reflexivity | exfalso].
    pose proof (run_live_only trace _ (mount_live_only u)) as Hlive.
    unfold live_only in Hlive. rewrite List.Forall_forall in Hlive.
    apply Hurl. apply (Hlive r).
    apply pending_In; [exact (find_request_In _ _ _ Hfind) | exact Hc]. }
  split; intros; simpl; fold s; rewrite Hfind.
  - unfold on_success. rewrite Hc. reflexivity.
  - unfold on_failure. rewrite Hc. reflexivity.
Qed.

(** Neither the cleanup nor a new [url] nor unmounting clears a timer. *)
Lemma cleanup_keeps_timers (s : state) : timers (cleanup s) = timers s.
Proof. unfold cleanup. destruct (live s); reflexivity. Qed.

Lemma set_url_keeps_timers (u : string) (s : state) :
  timers (set_url u s) = timers s.
Proof.
  unfold set_url. destruct (mounted s && negb (String.eqb u (url s)));
    [| reflexivity].
  unfold rerun_effect, run_effect. simpl. rewrite cleanup_keeps_timers.
  reflexivity.
Qed.

Lemma unmount_keeps_timers (s : state) : timers (unmount s) = timers s.
Proof.
  unfold unmount. destruct (mounted s); [| reflexivity].
  simpl. apply cleanup_keeps_timers.
Qed.

(** *** The claims about the loader *)

(** C3, as amended.  The retry counter is a natural number that is 0 when
    the loader mounts; as long as the [url] has not changed since then,
    whatever loads complete, timers fire or unmounting happens, it is at
    most [maxRetries = 3]; and a new [url] passed to a mounted loader
    leaves it as it is. *)
Theorem retryCount_bounded_while_url_fixed (u : string) (trace : list event) :
  forallb (fun e => negb (is_url_change e)) trace = true ->
  retryCount (mount u) = 0 /\
  retryCount (run (mount u) trace) <= maxRetries /\
  maxRetries = 3 /\
  (forall u',
     retryCount (step (run (mount u) trace) (UrlChanged u'))
     = retryCount (run (mount u) trace)).
Proof.
  intros Hfixed. split; [reflexivity |]. split.
  - pose proof (run_consistent trace _ Hfixed (mount_consistent u)) as H.
    exact (proj1 H).
  - split; [reflexivity |]. intros u'. simpl. apply set_url_retryCount.
Qed.

Lemma retryCount_bounded_while_url_fixed_witness :
  let trace :=
    [LoadFailed 0 (ErrorInstance "404"); TimerFired 0;
     LoadFailed 1 (ErrorInstance "404"); TimerFired 1;
     LoadFailed 2 (ErrorInstance "404"); TimerFired 2;
     LoadFailed 3 (ErrorInstance "404"); TimerFired 3; Unmounted] in
  retryCount (mount "a.glb") = 0 /\
  retryCount (run (mount "a.glb") trace) <= maxRetries /\
  maxRetries = 3 /\
  (forall u',
     retryCount (step (run (mount "a.glb") trace) (UrlChanged u'))
     = retryCount (run (mount "a.glb") trace)).
Proof.
  intros trace.
  apply (retryCount_bounded_while_url_fixed "a.glb" trace).
  reflexivity.
Defined.

(** C3 as stated fails: after one failed attempt and its retry the counter
    is 1, and a new [url] does not reset it. *)
Lemma retryCount_not_reset_by_url_change :
  let s :=
    run (mount "a.glb") [LoadFailed 0 (ErrorInstance "404"); TimerFired 0] in
  let s' := step s (UrlChanged "b.glb") in
  url s = "a.glb" /\ url s' = "b.glb" /\
  retryCount s = 1 /\ retryCount s' = 1 /\ retryCount s' <> 0.
Proof. repeat split; try reflexivity. discriminate. Qed.

(** C4, at the failing input.  The load of [a.glb] fails, is retried and
    fails again, which leaves a timer of 1000 ms pending.  The [url]
    changes to [b.glb] before the timer fires: the timer is still pending
    afterwards, and when it fires it raises the counter of the new
    session from 1 to 2, cancels the load of [b.glb] that was in flight
    and starts another one. *)
Theorem stale_timer_fires_after_url_change :
  let before :=
    run (mount "a.glb")
      [LoadFailed 0 (ErrorInstance "404"); TimerFired 0;
       LoadFailed 1 (ErrorInstance "404")] in
  let changed := step before (UrlChanged "b.glb") in
  let after := step changed (TimerFired 1) in
  timers before = [ {| timer_id := 1; delay := 1000 |} ] /\
  timers changed = [ {| timer_id := 1; delay := 1000 |} ] /\
  url changed = "b.glb" /\
  retryCount changed = 1 /\
  requests changed =
    [ {| request_id := 2; request_url := "b.glb";
         request_retryCount := 1; canceled := false |} ] /\
  retryCount after = 2 /\
  requests after =
    [ {| request_id := 2; request_url := "b.glb";
         request_retryCount := 1; canceled := true |};
      {| request_id := 3; request_url := "b.glb";
         request_retryCount := 2; canceled := false |} ].
Proof. vm_compute. repeat split. Qed.

(** With two such timers left over the counter passes its bound: both
    fire in the session of [b.glb] and the counter ends at 4. *)
Lemma retryCount_exceeds_bound_after_url_change :
  retryCount
    (run (mount "a.glb")
       [LoadFailed 0 (ErrorInstance "404"); TimerFired 0;
        LoadFailed 1 (ErrorInstance "404"); TimerFired 1;
        LoadFailed 2 (ErrorInstance "404");
        UrlChanged "b.glb";
        LoadFailed 3 (ErrorInstance "404");
        TimerFired 2; TimerFired 3])
  = 4.
Proof. vm_compute. reflexivity. Qed.

(** C5.  A load that fails three times and succeeds on the fourth attempt:
    [onError] is never called, [onLoad] is called exactly once, with the
    loaded scene, and the delays scheduled before attempts 2, 3 and 4 are
    0 ms, 1000 ms and 2000 ms.  Four loads were started and nothing is
    left pending. *)
Theorem three_failures_then_success (u : string) (e1 e2 e3 : JsValue)
    (scene : Three.Object3D) :
  let s :=
    run (mount u)
      [LoadFailed 0 e1; TimerFired 0;
       LoadFailed 1 e2; TimerFired 1;
       LoadFailed 2 e3; TimerFired 2;
       LoadSucceeded 3 scene] in
  calls s = [OnLoad scene] /\
  scheduled s = [0; 1000; 2000] /\
  model s = Some scene /\
  modelError s = None /\
  next_request s = 4 /\
  requests s = [] /\
  timers s = [].
Proof. vm_compute. repeat split. Qed.

(** C6, as amended.  A load that fails four consecutive times: [onError]
    is called exactly once, after the three retries; its argument is the
    message of the last error when that error is an instance of [Error],
    and the fixed text [Failed to load model] when it is any other value.
    No timer is pending afterwards, no load is in flight, and no later
    completion or timer changes the state. *)
Theorem four_failures_report_once (u : string) (e1 e2 e3 e4 : JsValue) :
  let s :=
    run (mount u)
      [LoadFailed 0 e1; TimerFired 0;
       LoadFailed 1 e2; TimerFired 1;
       LoadFailed 2 e3; TimerFired 2;
       LoadFailed 3 e4] in
  calls s = [OnError (error_message e4)] /\
  (forall message, e4 = ErrorInstance message -> calls s = [OnError message]) /\
  (forall message,
     e4 = OtherValue message -> calls s = [OnError "Failed to load model"]) /\
  modelError s = Some (error_message e4) /\
  scheduled s = [0; 1000; 2000] /\
  next_request s = 4 /\
  timers s = [] /\
  requests s = [] /\
  (forall id scene, step s (LoadSucceeded id scene) = s) /\
  (forall id err, step s (LoadFailed id err) = s) /\
  (forall id, step s (TimerFired id) = s).
Proof.
  vm_compute. repeat split.
  - intros message ->. reflexivity.
  - intros message ->. reflexivity.
Qed.

(** C6 as stated fails: when the fourth failure hands over a value that
    is not an instance of [Error] but carries the message
    [Network error], [onError] receives the fixed text instead. *)
Lemma fallback_message_for_other_values :
  let last := OtherValue (Some "Network error") in
  let s :=
    run (mount "a.glb")
      [LoadFailed 0 last; TimerFired 0;
       LoadFailed 1 last; TimerFired 1;
       LoadFailed 2 last; TimerFired 2;
       LoadFailed 3 last] in
  message_of last = Some "Network error" /\
  calls s = [OnError "Failed to load model"] /\
  calls s <> [OnError "Network error"].
Proof. vm_compute. repeat split. discriminate. Qed.

End ModelLoaderFacts.

(** ** The scene graph *)

Section ThreeFacts.

Import Three.

(** Induction on a scene graph: a property holds of an object as soon as
    it holds of all its children. *)
Lemma Object3D_children_ind (P : Object3D -> Prop) :
  (forall n ch, Forall P ch -> P (Object n ch)) -> forall o, P o.
Proof.
  intros Hnode. fix IH 1. intros [n ch]. apply Hnode.
  induction ch as [| c ch IHch]; constructor; [apply IH | exact IHch].
Qed.

Lemma traverse_unfold {S : Type} (callback : Node -> S -> Node * S)
    (n : Node) (ch : list Object3D) (s : S) :
  traverse callback (Object n ch) s =
    let '(n', s1) := callback n s in
    let '(ch', s2) := traverse_each callback ch s1 in
    (Object n' ch', s2).
Proof. reflexivity. Qed.

(** A callback that updates the object by [f] and the shared state by [g]
    maps [f] over the tree and folds [g] over its objects in traversal
    order. *)
Lemma traverse_separable {S : Type} (callback : Node -> S -> Node * S)
    (f : Node -> Node) (g : Node -> S -> S) :
  (forall n s, callback n s = (f n, g n s)) ->
  forall o s,
    traverse callback o s
    = (map_nodes f o, fold_left (fun s n => g n s) (nodes o) s).
Proof.
  intros Hcb. induction o as [n ch IH] using Object3D_children_ind.
  intros s. rewrite traverse_unfold, Hcb. simpl.
  assert (Heach : forall s1,
    traverse_each callback ch s1
    = (map (map_nodes f) ch,
       fold_left (fun s n => g n s) (flat_map nodes ch) s1)).
  { induction IH as [| c ch Hc _ IHch]; intros s1; simpl; [reflexivity |].
    rewrite Hc, IHch, fold_left_app. reflexivity. }
  rewrite Heach. reflexivity.
Qed.

Lemma nodes_map_nodes (f : Node -> Node) (o : Object3D) :
  nodes (map_nodes f o) = map f (nodes o).
Proof.
  induction o as [n ch IH] using Object3D_children_ind. simpl. f_equal.
  induction IH as [| c ch Hc _ IHch]; simpl; [reflexivity |].
  rewrite map_app, Hc, IHch. reflexivity.
Qed.

Lemma map_nodes_ext (f g : Node -> Node) (o : Object3D) :
  (forall n, In n (nodes o) -> f n = g n) -> map_nodes f o = map_nodes g o.
Proof.
  induction o as [n ch IH] using Object3D_children_ind. simpl. intros H.
  f_equal; [apply H; left; reflexivity |].
  assert (Hch : forall n', In n' (flat_map nodes ch) -> f n' = g n')
    by (intros n' Hn'; apply H; right; exact Hn').
  clear H. induction IH as [| c ch Hc _ IHch]; simpl; [reflexivity |].
  f_equal.
  - apply Hc. intros n' Hn'. apply Hch. simpl. apply in_or_app. left. exact Hn'.
  - apply IHch. intros n' Hn'. apply Hch. simpl. apply in_or_app. right. exact Hn'.
Qed.

Lemma map_nodes_compose (f g : Node -> Node) (o : Object3D) :
  map_nodes f (map_nodes g o) = map_nodes (fun n => f (g n)) o.
Proof.
  induction o as [n ch IH] using Object3D_children_ind. simpl. f_equal.
  induction IH as [| c ch Hc _ IHch]; simpl; [reflexivity |].
  rewrite Hc, IHch. reflexivity.
Qed.

(** Updating fields the bounding box does not depend on leaves the
    bounding points where they are. *)
Lemma world_points_map_nodes (f : Node -> Node) (o : Object3D) :
  (forall n, same_frame n (f n)) ->
  world_points (map_nodes f o) = world_points o.
Proof.
  intros Hf. induction o as [n ch IH] using Object3D_children_ind. simpl.
  destruct (Hf n) as (Hpts & Hpos & Hlin).
  assert (Hto : to_parent (f n) = to_parent n)
    by (unfold to_parent; rewrite Hpos, Hlin; reflexivity).
  rewrite Hto, Hpts. f_equal. f_equal.
  induction IH as [| c ch Hc _ IHch]; simpl; [reflexivity |].
  rewrite Hc, IHch. reflexivity.
Qed.

End ThreeFacts.

(** ** The bounding box and the ground alignment *)

Section BoundingBox.

Import Three.
Local Open Scope R_scope.






Lemma position_add_position_y (d : number) (o : Object3D) :
  position (root (add_position_y d o))
  = (x_of (position (root o)),
     add (y_of (position (root o))) d,
     z_of (position (root o))).
Proof.
  destruct o as [n ch]. simpl. destruct (position n) as [[px py] pz].
  reflexivity.
Qed.


End BoundingBox.

(** ** [ModelContent] *)

Section ModelContentFacts.

Import Three ModelContent.

Lemma record_and_swap_split (matte : MaterialRef) (n : Node)
    (table : gmap nat MaterialRef) :
  record_and_swap matte n table = (swap matte n, record n table).
Proof.
  unfold swap, record, record_and_swap. destruct (kind n); reflexivity.
Qed.

Lemma toggle_material_split (matte : MaterialRef)
    (table : gmap nat MaterialRef) (n : Node) (u : unit) :
  toggle_material matte table n u = (toggle matte table n, u).
Proof.
  unfold toggle, toggle_material. destruct (kind n); reflexivity.
Qed.

(** [handleModelLoad] in one piece: every mesh swapped to the matte
    material, the whole graph translated once by the negative of the
    lowest Y of its box, and every mesh recorded in the side table. *)
Lemma handleModelLoad_state (scene : Object3D) (s : state) :
  handleModelLoad scene s =
    {| model :=
         Some (add_position_y
                 (neg (y_of (min (setFromObject
                                    (map_nodes (swap (matteMaterial s)) scene)))))
                 (map_nodes (swap (matteMaterial s)) scene));
       materials := fold_left (fun t n => record n t) (nodes scene) (materials s);
       matteMaterial := matteMaterial s;
       errors := errors s |}.
Proof.
  unfold handleModelLoad.
  rewrite (traverse_separable _ (swap (matteMaterial s)) record
             (record_and_swap_split (matteMaterial s))).
  reflexivity.
Qed.

Lemma toggleTextures_state (s : state) (m : Object3D) :
  model s = Some m ->
  toggleTextures s =
    {| model := Some (map_nodes (toggle (matteMaterial s) (materials s)) m);
       materials := materials s;
       matteMaterial := matteMaterial s;
       errors := errors s |}.
Proof.
  intros Hm. unfold toggleTextures. rewrite Hm.
  rewrite (traverse_separable _ (toggle (matteMaterial s) (materials s))
             (fun _ u => u) (toggle_material_split _ _)).
  reflexivity.
Qed.

Lemma swap_same_frame (matte : MaterialRef) (n : Node) :
  same_frame n (swap matte n).
Proof.
  unfold same_frame, swap, record_and_swap, own_points.
  destruct (kind n) eqn:Hk; simpl; rewrite ?Hk; repeat split.
Qed.

(** The material swap leaves the box as it is. *)
Lemma setFromObject_swap (matte : MaterialRef) (o : Object3D) :
  setFromObject (map_nodes (swap matte) o) = setFromObject o.
Proof.
  unfold setFromObject.
  rewrite (world_points_map_nodes _ _ (swap_same_frame matte)). reflexivity.
Qed.

Lemma toggle_add_position_y (matte : MaterialRef)
    (table : gmap nat MaterialRef) (d : number) (o : Object3D) :
  map_nodes (toggle matte table) (add_position_y d o)
  = add_position_y d (map_nodes (toggle matte table) o).
Proof.
  destruct o as [[i k [[px py] pz] l c r] ch].
  unfold toggle, toggle_material. destruct k; reflexivity.
Qed.

Lemma nodes_add_position_y_materials (d : number) (o : Object3D) :
  mesh_materials (add_position_y d o) = mesh_materials o.
Proof.
  destruct o as [n ch]. unfold mesh_materials. simpl.
  destruct (position n) as [[px py] pz]. reflexivity.
Qed.

Lemma mesh_materials_map_nodes (f : Node -> Node) (o : Object3D) :
  mesh_materials (map_nodes f o)
  = omap (fun n => mesh_material (f n)) (nodes o).
Proof.
  unfold mesh_materials. rewrite nodes_map_nodes. unfold omap.
  induction (nodes o) as [| n l IH]; simpl; [reflexivity |].
  rewrite IH. reflexivity.
Qed.

Lemma omap_ext_In {A B : Type} (f g : A -> option B) (l : list A) :
  (forall a, In a l -> f a = g a) -> omap f l = omap g l.
Proof.
  unfold omap. induction l as [| a l IH]; simpl; intros H; [reflexivity |].
  rewrite (H a (or_introl eq_refl)), IH; [reflexivity |].
  intros b Hb. apply H. right. exact Hb.
Qed.

(** *** What the side table holds after a load *)

Lemma record_other (l : list Node) (table : gmap nat MaterialRef) (k : nat) :
  ~ In k (map oid l) ->
  fold_left (fun t n => record n t) l table !! k = table !! k.
Proof.
  revert table. induction l as [| a l IH]; intros table Hk; simpl;
    [reflexivity |].
  simpl in Hk. rewrite IH by tauto.
  unfold record. destruct (kind a); [| reflexivity].
  apply lookup_insert_ne. intros Heq. apply Hk. left. exact Heq.
Qed.

Lemma record_found (l : list Node) (table : gmap nat MaterialRef)
    (n : Node) (m : MaterialRef) (corners : list vec3) :
  List.NoDup (map oid l) -> In n l -> kind n = Mesh m corners ->
  fold_left (fun t n => record n t) l table !! oid n = Some m.
Proof.
  revert table. induction l as [| a l IH]; intros table Hnodup Hin Hkind;
    simpl; [destruct Hin |].
  simpl in Hnodup. inversion Hnodup as [| ? ? Hfresh Hrest]; subst.
  destruct Hin as [-> | Hin].
  - rewrite record_other by exact Hfresh.
    unfold record. rewrite Hkind. apply lookup_insert_eq.
  - apply IH; assumption.
Qed.

(** *** One toggle and two toggles after a load *)

(** After the swap, one toggle gives a recorded mesh its recorded
    material back. *)
Lemma toggle_swap_material (matte : MaterialRef)
    (table : gmap nat MaterialRef) (n : Node) (m : MaterialRef)
    (corners : list vec3) :
  kind n = Mesh m corners -> table !! oid n = Some m ->
  mesh_material (toggle matte table (swap matte n)) = Some (oid n, m).
Proof.
  intros Hkind Hrec.
  unfold mesh_material, toggle, toggle_material, swap, record_and_swap.
  rewrite Hkind. simpl. rewrite decide_True by reflexivity.
  rewrite Hrec. reflexivity.
Qed.

(** A second toggle brings the matte material back. *)
Lemma toggle_toggle_swap (matte : MaterialRef)
    (table : gmap nat MaterialRef) (n : Node) :
  (forall m corners, kind n = Mesh m corners -> table !! oid n = Some m) ->
  toggle matte table (toggle matte table (swap matte n)) = swap matte n.
Proof.
  intros Hrec. destruct n as [i k p l c r]. simpl in Hrec.
  unfold toggle, toggle_material, swap, record_and_swap.
  destruct k as [m corners |]; simpl; [| reflexivity].
  pose proof (Hrec m corners eq_refl) as Hm.
  destruct (decide (matte = matte)) as [_ | Hne]; [| congruence].
  rewrite Hm. simpl.
  destruct (decide (m = matte)) as [Heq | Hne]; [| reflexivity].
  rewrite Heq. reflexivity.
Qed.

Lemma swap_material (matte : MaterialRef) (n : Node) :
  mesh_material (swap matte n)
  = match mesh_material n with
    | Some (id, _) => Some (id, matte)
    | None => None
    end.
Proof.
  unfold mesh_material, swap, record_and_swap.
  destruct (kind n) eqn:Hkind; simpl; rewrite ?Hkind; reflexivity.
Qed.

Lemma omap_swap_material (matte : MaterialRef) (l : list Node) :
  omap (fun n => mesh_material (swap matte n)) l
  = map (fun p => (fst p, matte)) (omap mesh_material l).
Proof.
  unfold omap. induction l as [| n l IH]; simpl; [reflexivity |].
  rewrite swap_material, IH.
  destruct (mesh_material n) as [[id m] |]; reflexivity.
Qed.

Lemma toggle_swap_mesh_material (matte : MaterialRef)
    (table : gmap nat MaterialRef) (n : Node) :
  (forall m corners, kind n = Mesh m corners -> table !! oid n = Some m) ->
  mesh_material (toggle matte table (swap matte n)) = mesh_material n.
Proof.
  intros Hrec. destruct (kind n) as [m corners |] eqn:Hkind.
  - rewrite (toggle_swap_material matte table n m corners Hkind
               (Hrec m corners eq_refl)).
    unfold mesh_material. rewrite Hkind. reflexivity.
  - unfold mesh_material, toggle, toggle_material, swap, record_and_swap.
    rewrite Hkind. simpl. rewrite Hkind. simpl. rewrite Hkind. reflexivity.
Qed.

Lemma In_omap {A B : Type} (f : A -> option B) (l : list A) (b : B) :
  In b (omap f l) -> exists a, In a l /\ f a = Some b.
Proof.
  unfold omap. induction l as [| a l IH]; simpl; [tauto |].
  destruct (f a) as [b' |] eqn:Hfa; simpl.
  - intros [-> | Hin].
    + exists a. tauto.
    + destruct (IH Hin) as (a' & Ha' & Hfa'). exists a'. tauto.
  - intros Hin. destruct (IH Hin) as (a' & Ha' & Hfa'). exists a'. tauto.
Qed.

(** After a load the side table holds the material every mesh came
    with. *)
Lemma load_records_materials (scene : Object3D) (s : state) (n : Node)
    (m : MaterialRef) (corners : list vec3) :
  List.NoDup (object_ids scene) -> In n (nodes scene) ->
  kind n = Mesh m corners ->
  materials (handleModelLoad scene s) !! oid n = Some m.
Proof.
  intros Hnodup Hin Hkind. rewrite handleModelLoad_state. simpl.
  apply (record_found _ _ n m corners); assumption.
Qed.

(** After a load every mesh carries the matte material. *)
Lemma load_materials_matte (scene : Object3D) (s : state) :
  current_materials (handleModelLoad scene s)
  = map (fun p => (fst p, matteMaterial s)) (mesh_materials scene).
Proof.
  rewrite handleModelLoad_state. unfold current_materials. simpl.
  rewrite nodes_add_position_y_materials, mesh_materials_map_nodes.
  apply omap_swap_material.
Qed.

(** One toggle after a load gives every mesh its recorded material. *)
Lemma toggle_once_restores (scene : Object3D) (s : state) :
  List.NoDup (object_ids scene) ->
  current_materials (toggleTextures (handleModelLoad scene s))
  = mesh_materials scene.
Proof.
  intros Hnodup.
  pose proof (load_records_materials scene s) as Hrec.
  rewrite handleModelLoad_state in Hrec |- *.
  erewrite toggleTextures_state by reflexivity.
  unfold current_materials. simpl in Hrec |- *.
  rewrite toggle_add_position_y, nodes_add_position_y_materials.
  rewrite map_nodes_compose, mesh_materials_map_nodes.
  apply omap_ext_In. intros n Hn.
  apply toggle_swap_mesh_material. intros m corners Hkind.
  apply (Hrec n m corners); assumption.
Qed.

(** Two toggles after a load give back the state the load left. *)
Lemma toggle_twice_is_load (scene : Object3D) (s : state) :
  List.NoDup (object_ids scene) ->
  toggleTextures (toggleTextures (handleModelLoad scene s))
  = handleModelLoad scene s.
Proof.
  intros Hnodup.
  pose proof (load_records_materials scene s) as Hrec.
  rewrite handleModelLoad_state in Hrec |- *.
  erewrite (toggleTextures_state (toggleTextures _)).
  2:{ erewrite toggleTextures_state by reflexivity. reflexivity. }
  erewrite toggleTextures_state by reflexivity.
  simpl in Hrec |- *. f_equal. f_equal.
  rewrite !toggle_add_position_y, !map_nodes_compose. f_equal.
  apply map_nodes_ext. intros n Hn.
  apply toggle_toggle_swap. intros m corners Hkind.
  apply (Hrec n m corners); assumption.
Qed.

(** *** The claims about the materials *)

(** C2, as amended.  For a graph whose objects have distinct identities:
    after a load the side table holds the material every
    mesh came with and every mesh carries the shared matte material; one
    call of the toggle gives every mesh the material recorded for it at
    load time; a second call gives every mesh the matte material again,
    so that two calls leave the state the load produced, not the recorded
    materials, and two calls made while the recorded materials are shown
    bring those back. *)
Theorem toggle_after_load (scene : Object3D) (s : state) :
  List.NoDup (object_ids scene) ->
  let loaded := handleModelLoad scene s in
  let once := toggleTextures loaded in
  let twice := toggleTextures once in
  (forall id m,
     In (id, m) (mesh_materials scene) -> materials loaded !! id = Some m) /\
  current_materials loaded
    = map (fun p => (fst p, matteMaterial s)) (mesh_materials scene) /\
  current_materials once = mesh_materials scene /\
  twice = loaded /\
  current_materials twice
    = map (fun p => (fst p, matteMaterial s)) (mesh_materials scene) /\
  toggleTextures twice = once.
Proof.
  intros Hnodup loaded once twice.
  assert (Htwice : twice = loaded) by (apply toggle_twice_is_load; exact Hnodup).
  repeat split.
  - intros id m Hin. apply In_omap in Hin as (n & Hn & Hmat).
    unfold mesh_material in Hmat.
    destruct (kind n) as [m' corners |] eqn:Hkind; [| discriminate].
    injection Hmat as <- <-.
    apply (load_records_materials scene s n m' corners); assumption.
  - apply load_materials_matte.
  - apply toggle_once_restores. exact Hnodup.
  - exact Htwice.
  - rewrite Htwice. apply load_materials_matte.
  - rewrite Htwice. reflexivity.
Qed.

Lemma example_scene_NoDup : List.NoDup (object_ids example_scene).
Proof.
  unfold object_ids. simpl. repeat constructor; simpl; intuition discriminate.
Qed.

Lemma toggle_after_load_witness :
  let loaded := handleModelLoad example_scene (mount (Material 0)) in
  current_materials (toggleTextures loaded) = [(1, Material 7)] /\
  toggleTextures (toggleTextures loaded) = loaded.
Proof.
  intros loaded.
  destruct (toggle_after_load example_scene (mount (Material 0))
              example_scene_NoDup) as (_ & _ & Honce & Htwice & _ & _).
  split; [exact Honce | exact Htwice].
Defined.

(** C2 as stated fails: the mesh of the example scene is recorded with
    the material at address 7, and after two calls of the toggle it
    carries the matte material, at address 0. *)
Lemma toggle_twice_is_not_original :
  let loaded := handleModelLoad example_scene (mount (Material 0)) in
  let twice := toggleTextures (toggleTextures loaded) in
  materials loaded !! 1 = Some (Material 7) /\
  current_materials twice = [(1, Material 0)] /\
  ~ (forall id m,
       In (id, m) (current_materials twice) -> materials loaded !! id = Some m).
Proof.
  intros loaded twice.
  assert (Hrec : materials loaded !! 1 = Some (Material 7)).
  { apply (load_records_materials example_scene (mount (Material 0))
             (root example_mesh) (Material 7)
             [ (Fin 0, Fin 1, Fin 0); (Fin 1, Fin 3, Fin 1) ]).
    - exact example_scene_NoDup.
    - simpl. right. left. reflexivity.
    - reflexivity. }
  assert (Hcur : current_materials twice = [(1, Material 0)]).
  { unfold twice, loaded.
    rewrite (toggle_twice_is_load _ _ example_scene_NoDup).
    rewrite load_materials_matte. reflexivity. }
  split; [exact Hrec |]. split; [exact Hcur |].
  intros Hall. specialize (Hall 1 (Material 0)).
  rewrite Hcur, Hrec in Hall.
  assert (Habs : Some (Material 7) = Some (Material 0))
    by (apply Hall; left; reflexivity).
  discriminate Habs.
Qed.

(** C10.  While there is no model the toggle changes nothing: no
    material, not the side table, no other part of the state. *)
Theorem toggleTextures_without_model (s : state) :
  model s = None -> toggleTextures s = s.
Proof. intros Hnone. unfold toggleTextures. rewrite Hnone. reflexivity. Qed.

Lemma toggleTextures_without_model_witness :
  toggleTextures (mount (Material 0)) = mount (Material 0).
Proof.
  apply (toggleTextures_without_model (mount (Material 0))). reflexivity.
Defined.

End ModelContentFacts.

(** ** The ground alignment of [handleModelLoad] *)

Section GroundAlignment.

Import Three ModelContent.
Local Open Scope R_scope.

(** A graph without bounding points has the empty box; its translation
    is by minus infinity. *)
Lemma empty_graph_offset (scene : Object3D) :
  world_points scene = [] ->
  neg (y_of (min (setFromObject scene))) = NegInf.
Proof. intros H. unfold setFromObject. rewrite H. reflexivity. Qed.


End GroundAlignment.

Section GroundAlignmentBinary64.

Import PrimFloat.
Local Open Scope float_scope.


End GroundAlignmentBinary64.

(* ===================================================================== *)
(** * Further properties *)
(* ===================================================================== *)

(** ** [tempToColor] on every input *)

Section TempToColorDomain.

Local Open Scope R_scope.

Lemma within_min_max (x : number) :
  x <> NaN -> within 0 255 (Math_min (Fin 255) (Math_max (Fin 0) x)).
Proof.
  intros Hx. rewrite min_max_is_clamp by lra. apply clamp_within; [lra | exact Hx].
Qed.

Lemma leb_zero_cases (kelvin : number) :
  leb (Fin 0) kelvin = true ->
  kelvin = PosInf \/ exists k, kelvin = Fin k /\ 0 <= k.
Proof.
  destruct kelvin as [ | | k | ]; simpl; try discriminate.
  - intros H. right. exists k. split; [reflexivity |].
    destruct (Rle_dec 0 k); [assumption | discriminate].
  - intros _. left. reflexivity.
Qed.

(** From zero Kelvin upwards, plus infinity included, the three channels
    are finite values between 0 and 255. *)
Lemma tempToColor_within_of_nonneg (kelvin : number) :
  leb (Fin 0) kelvin = true ->
  let '(red, green, blue) := tempToColor kelvin in
  within 0 255 red /\ within 0 255 green /\ within 0 255 blue.
Proof.
  intros Hk.
  assert (Hfull : within 0 255 (Fin 255))
    by (exists 255; split; [reflexivity | lra]).
  assert (Hzero : within 0 255 (Fin 0))
    by (exists 0; split; [reflexivity | lra]).
  destruct (leb_zero_cases kelvin Hk) as [-> | (k & -> & Hpos)].
  - unfold tempToColor. simpl div.
    destruct (Rlt_dec 100 0) as [Habs | _]; [lra |].
    simpl leb. cbv iota. repeat split; [| | exact Hfull].
    + apply within_min_max. simpl.
      destruct (Req_dec_T (-0.1332047592) 0) as [Habs | _]; [lra |].
      destruct (Rlt_dec 0 (-0.1332047592)) as [Habs | _]; [lra |].
      simpl. congruence.
    + apply within_min_max. simpl.
      destruct (Req_dec_T (-0.0755148492) 0) as [Habs | _]; [lra |].
      destruct (Rlt_dec 0 (-0.0755148492)) as [Habs | _]; [lra |].
      simpl. congruence.
  - unfold tempToColor. rewrite div_Fin by lra.
    set (v := k / 100). assert (Hv : 0 <= v) by (unfold v; lra).
    destruct (leb (Fin v) (Fin 66)) eqn:Hsplit.
    + repeat split; [exact Hfull | |].
      * apply within_min_max. simpl Math_log.
        destruct (total_order_T 0 v) as [[Hlt | Heq] | Hgt].
        -- simpl. congruence.
        -- simpl. unfold signed_inf.
           match goal with
           | |- context [total_order_T ?a ?b] =>
               destruct (total_order_T a b) as [[?|?]|?]
           end; [exfalso; lra | exfalso; lra | simpl; congruence].
        -- lra.
      * destruct (leb (Fin v) (Fin 19)) eqn:Hblue; [exact Hzero |].
        apply leb_Fin_false in Hblue.
        apply within_min_max.
        unfold sub at 2. simpl neg. simpl add.
        rewrite Math_log_pos by lra. simpl. congruence.
    + apply leb_Fin_false in Hsplit.
      repeat split; [| | exact Hfull].
      * apply within_min_max. unfold sub. simpl neg. simpl add.
        rewrite Math_pow_pos by lra. simpl. congruence.
      * apply within_min_max. unfold sub. simpl neg. simpl add.
        rewrite Math_pow_pos by lra. simpl. congruence.
Qed.

(** X1.  Where [tempToColor] yields a colour and where it does not.  For
    a temperature from zero Kelvin upwards, plus infinity included, the
    three channels are finite values between 0 and 255.  When the
    temperature divided by 100 is below zero, minus infinity included,
    the logarithm in the green channel is taken of a negative number: the
    channels are 255, [NaN] and 0.  For [NaN] the comparison with 66
    fails and both powers are [NaN]: the channels are [NaN], [NaN] and
    255. *)
Theorem tempToColor_domain (kelvin : number) :
  (leb (Fin 0) kelvin = true ->
   let '(red, green, blue) := tempToColor kelvin in
   within 0 255 red /\ within 0 255 green /\ within 0 255 blue) /\
  (ltb (div kelvin (Fin 100)) (Fin 0) = true ->
   tempToColor kelvin = (Fin 255, NaN, Fin 0)) /\
  (kelvin = NaN -> tempToColor kelvin = (NaN, NaN, Fin 255)).
Proof.
  split; [apply tempToColor_within_of_nonneg | split].
  - unfold tempToColor.
    destruct (div kelvin (Fin 100)) as [ | | v | ] eqn:Hv; simpl ltb;
      try discriminate.
    + intros _. reflexivity.
    + intros Hneg.
      assert (Hlt : v < 0) by (destruct (Rlt_dec v 0); [lra | discriminate]).
      assert (H66 : leb (Fin v) (Fin 66) = true) by (apply leb_Fin; lra).
      assert (H19 : leb (Fin v) (Fin 19) = true) by (apply leb_Fin; lra).
      rewrite H66, H19.
      simpl Math_log.
      destruct (total_order_T 0 v) as [[? | ?] | ?]; try (exfalso; lra).
      reflexivity.
  - intros ->. unfold tempToColor. simpl div. simpl leb. cbv iota.
    simpl sub. simpl Math_pow.
    destruct (Req_dec_T (-0.1332047592) 0) as [Habs | _]; [exfalso; lra |].
    destruct (Req_dec_T (-0.0755148492) 0) as [Habs | _]; [exfalso; lra |].
    reflexivity.
Qed.

End TempToColorDomain.

(** ** [MovableLight] over whole interactions *)

Section MovableLightRuns.

Local Open Scope R_scope.

Lemma mount_in_range (controls : option bool) :
  light_in_range (MovableLight_mount controls).
Proof.
  unfold light_in_range, MovableLight_mount, INITIAL_LIGHT_STATE, within,
    is_finite. simpl.
  repeat split; try (eexists; reflexivity); try constructor.
  - exists 6500. split; [reflexivity | lra].
  - exists 1. split; [reflexivity | lra].
Qed.

Lemma within_is_finite (lo hi : R) (a : number) : within lo hi a -> is_finite a.
Proof. intros (r & Hr & _). exists r. exact Hr. Qed.

Lemma updateLight_in_range (adjusting : bool) (dx dy : R) (l : LightState) :
  within 2000 10000 (temperature l) -> within 0 6 (intensity l) ->
  let l' := updateLight adjusting (Fin dx) (Fin dy) l in
  within 2000 10000 (temperature l') /\ within 0 6 (intensity l').
Proof.
  intros Ht Hi.
  destruct l as [[[px py] pz] i t]. cbn [temperature intensity position] in *.
  destruct adjusting; cbn [updateLight temperature intensity position fst snd].
  - destruct (within_is_finite _ _ _ Ht) as [t' ->].
    destruct (within_is_finite _ _ _ Hi) as [i' ->].
    rewrite !max_min_is_clamp by lra.
    split; apply clamp_within; try lra; simpl; congruence.
  - split; assumption.
Qed.

(** Running any number of queued updaters, in either mode, keeps
    temperature and intensity within their ranges. *)
Lemma updaters_in_range (adjusting : bool) (q : list (number * number))
    (l : LightState) :
  Forall (fun u => is_finite (fst u) /\ is_finite (snd u)) q ->
  within 2000 10000 (temperature l) -> within 0 6 (intensity l) ->
  let l' :=
    fold_left (fun prev u => updateLight adjusting (fst u) (snd u) prev) q l in
  within 2000 10000 (temperature l') /\ within 0 6 (intensity l').
Proof.
  revert l. induction q as [| [dx dy] q IH]; intros l Hq Ht Hi; simpl.
  - split; assumption.
  - inversion Hq as [| ? ? [[x Hx] [y Hy]] Hrest]; subst.
    simpl in Hx, Hy. subst dx dy.
    destruct (updateLight_in_range adjusting x y l Ht Hi) as [Ht' Hi'].
    apply IH; assumption.
Qed.

(** One event with finite coordinates keeps the light within its
    ranges. *)
Lemma handlePointer_in_range (s : MovableLight) (ev : PointerEvent) :
  finite_pointer ev -> light_in_range s -> light_in_range (handlePointer s ev).
Proof.
  intros Hev Hs. destruct ev as [e | e | |]; simpl in *.
  - unfold handleMouseDown. destruct (negb (shiftKey e)); [exact Hs |].
    destruct Hs as (Ht & Hi & _ & _ & Hq).
    unfold light_in_range. simpl. tauto.
  - unfold handleMouseMove.
    destruct (negb (isDragging s) && negb (isAdjusting s)); [exact Hs |].
    destruct Hs as (Ht & Hi & [a Ha] & [b Hb] & Hq).
    destruct Hev as [[x Hx'] [y Hy']].
    unfold light_in_range. simpl. rewrite Ha, Hb, Hx', Hy'. simpl.
    repeat split; try assumption; try (eexists; reflexivity).
    apply Forall_app_2; [exact Hq |].
    constructor; [| constructor]. split; eexists; reflexivity.
  - destruct Hs as (Ht & Hi & Ha & Hb & Hq).
    unfold light_in_range. simpl. tauto.
  - destruct Hs as (Ht & Hi & Ha & Hb & Hq).
    unfold light_in_range. cbn [runUpdaters lightState prevPos queued].
    destruct (updaters_in_range (isAdjusting s) (queued s) (lightState s)
                Hq Ht Hi) as [Ht' Hi'].
    repeat split; try assumption. constructor.
Qed.

Lemma handlePointers_in_range (evs : list PointerEvent) (s : MovableLight) :
  Forall finite_pointer evs -> light_in_range s ->
  light_in_range (handlePointers s evs).
Proof.
  revert s. induction evs as [| ev evs IH]; intros s Hevs Hs; simpl.
  - exact Hs.
  - inversion Hevs as [| ? ? Hev Hrest]; subst.
    apply IH; [exact Hrest |]. apply handlePointer_in_range; assumption.
Qed.

(** X2.  Whatever pointer events with finite coordinates reach a mounted
    light, and whenever React runs the updaters they queued, its
    temperature stays between 2000 and 10000 and its intensity between 0
    and 6.  (Nothing bounds the position: each Reposition move adds to
    it.) *)
Theorem light_stays_in_range (controls : option bool)
    (evs : list PointerEvent) :
  Forall finite_pointer evs ->
  let s := handlePointers (MovableLight_mount controls) evs in
  within 2000 10000 (temperature (lightState s)) /\
  within 0 6 (intensity (lightState s)).
Proof.
  intros Hevs s.
  pose proof (handlePointers_in_range evs _ Hevs (mount_in_range controls))
    as (Ht & Hi & _).
  split; assumption.
Qed.

Lemma example_drag_finite : Forall finite_pointer example_drag.
Proof. repeat constructor; eexists; reflexivity. Qed.

Lemma light_stays_in_range_witness :
  let s := handlePointers (MovableLight_mount (Some true)) example_drag in
  within 2000 10000 (temperature (lightState s)) /\
  within 0 6 (intensity (lightState s)).
Proof.
  apply (light_stays_in_range (Some true) example_drag).
  exact example_drag_finite.
Defined.

(** X3.  The colour [MovableLight] renders from its temperature is
    always a valid one: after any pointer events with finite coordinates
    each channel [tempToColor] computes is a finite value between 0 and
    255. *)
Theorem light_color_always_valid (controls : option bool)
    (evs : list PointerEvent) :
  Forall finite_pointer evs ->
  let s := handlePointers (MovableLight_mount controls) evs in
  let '(red, green, blue) := tempToColor (temperature (lightState s)) in
  within 0 255 red /\ within 0 255 green /\ within 0 255 blue.
Proof.
  intros Hevs s.
  pose proof (handlePointers_in_range evs _ Hevs (mount_in_range controls))
    as ((t & Ht & Hrange) & _).
  fold s in Ht. rewrite Ht.
  apply tempToColor_within_of_nonneg. apply leb_Fin. lra.
Qed.

Lemma light_color_always_valid_witness :
  let s := handlePointers (MovableLight_mount (Some true)) example_drag in
  let '(red, green, blue) := tempToColor (temperature (lightState s)) in
  within 0 255 red /\ within 0 255 green /\ within 0 255 blue.
Proof.
  apply (light_color_always_valid (Some true) example_drag).
  exact example_drag_finite.
Defined.

(** One event that is not a pointer-down with the trigger modifier
    leaves an idle light with nothing queued as it is. *)
Lemma handlePointer_idle (s : MovableLight) (ev : PointerEvent) :
  is_trigger ev = false -> idle s -> queued s = [] ->
  idle (handlePointer s ev) /\
  lightState (handlePointer s ev) = lightState s /\
  queued (handlePointer s ev) = [].
Proof.
  intros Hev [Hd Ha] Hq. destruct ev as [e | e | |]; simpl in *.
  - unfold handleMouseDown. rewrite Hev. simpl.
    split; [split; assumption | split; [reflexivity | assumption]].
  - unfold handleMouseMove. rewrite Hd, Ha. simpl.
    split; [split; assumption | split; [reflexivity | assumption]].
  - split; [split; reflexivity | split; [reflexivity | assumption]].
  - rewrite Hq. simpl.
    split; [split; assumption | split; reflexivity].
Qed.

(** X4.  Without a pointer-down that the trigger modifier accompanies
    nothing moves the light: from an idle controller with no updater
    waiting, any sequence of pointer-moves, pointer-ups, pointer-downs
    without the modifier and renders leaves position, intensity and
    temperature as they are, and the controller idle. *)
Theorem light_unchanged_without_trigger (s : MovableLight)
    (evs : list PointerEvent) :
  idle s -> queued s = [] ->
  forallb (fun ev => negb (is_trigger ev)) evs = true ->
  lightState (handlePointers s evs) = lightState s /\
  idle (handlePointers s evs).
Proof.
  revert s. induction evs as [| ev evs IH]; intros s Hidle Hq Hevs; simpl.
  - split; [reflexivity | exact Hidle].
  - simpl in Hevs. apply andb_prop in Hevs as [Hev Hrest].
    apply negb_true_iff in Hev.
    destruct (handlePointer_idle s ev Hev Hidle Hq) as (Hidle' & Hsame & Hq').
    destruct (IH _ Hidle' Hq' Hrest) as [Hlight Hfinal].
    split; [rewrite Hlight; exact Hsame | exact Hfinal].
Qed.

Lemma light_unchanged_without_trigger_witness :
  let evs :=
    [ MouseMove {| shiftKey := true; altKey := true;
                   clientX := Fin 300; clientY := Fin 5 |};
      Render;
      MouseDown {| shiftKey := false; altKey := true;
                   clientX := Fin 10; clientY := Fin 10 |};
      MouseMove {| shiftKey := false; altKey := true;
                   clientX := Fin 50; clientY := Fin 70 |};
      MouseUp;
      Render ] in
  lightState (handlePointers (MovableLight_mount None) evs)
    = INITIAL_LIGHT_STATE /\
  idle (handlePointers (MovableLight_mount None) evs).
Proof.
  intros evs.
  apply (light_unchanged_without_trigger (MovableLight_mount None) evs).
  - split; reflexivity.
  - reflexivity.
  - reflexivity.
Defined.

Lemma handlePointer_controls_None (s : MovableLight) (ev : PointerEvent) :
  controls_enabled (handlePointer s ev) = None <-> controls_enabled s = None.
Proof.
  destruct ev as [e | e | |]; simpl.
  - unfold handleMouseDown. destruct (negb (shiftKey e)); simpl; [tauto |].
    destruct (controls_enabled s); simpl; split; congruence.
  - unfold handleMouseMove.
    destruct (negb (isDragging s) && negb (isAdjusting s)); simpl; tauto.
  - destruct (controls_enabled s); simpl; split; congruence.
  - tauto.
Qed.

Lemma handlePointers_controls_None (evs : list PointerEvent) (s : MovableLight) :
  controls_enabled (handlePointers s evs) = None <-> controls_enabled s = None.
Proof.
  revert s. induction evs as [| ev evs IH]; intros s; simpl; [tauto |].
  rewrite IH. apply handlePointer_controls_None.
Qed.

Lemma handlePointers_app (evs1 evs2 : list PointerEvent) (s : MovableLight) :
  handlePointers s (evs1 ++ evs2) = handlePointers (handlePointers s evs1) evs2.
Proof. unfold handlePointers. apply fold_left_app. Qed.

(** X5.  However an interaction went, the pointer-up that ends it leaves
    the controller idle and the orbit controls enabled when the scene
    holds controls; the handlers never create controls where it holds
    none. *)
Theorem pointer_up_restores_controls (s : MovableLight)
    (evs : list PointerEvent) :
  let s' := handlePointers s (evs ++ [MouseUp]) in
  idle s' /\
  controls_enabled s' = set_controls true (controls_enabled s).
Proof.
  intros s'. unfold s'. rewrite handlePointers_app. simpl.
  split; [split; reflexivity |].
  pose proof (handlePointers_controls_None evs s) as Hnone.
  destruct (controls_enabled (handlePointers s evs)) as [b |] eqn:Hc;
    destruct (controls_enabled s) as [b' |] eqn:Hc'; simpl; try reflexivity.
  - destruct Hnone as [_ H]. discriminate (H eq_refl).
  - destruct Hnone as [H _]. discriminate (H eq_refl).
Qed.

End MovableLightRuns.

(** ** [ModelLoader]: one attempt chain *)

Section ModelLoaderChain.

Import ModelLoader.

Lemma mount_chain (u : string) : chain (mount u).
Proof.
  split; [apply mount_consistent |]. split; [| split].
  - intros H. exfalso. apply H. reflexivity.
  - exists 0. unfold maxRetries. simpl. repeat split; try lia.
    intros H. exfalso. apply H. reflexivity.
  - repeat split; simpl; intros; try reflexivity; contradiction.
Qed.

Lemma remove_consistent (id : nat) (s : state) :
  consistent s -> consistent (with_requests (remove_request id (requests s)) s).
Proof.
  intros (Hrc & Hlen & Htimer & Hone & Hcount).
  unfold consistent. simpl. repeat split.
  - exact Hrc.
  - exact Hlen.
  - apply Htimer. assumption.
  - apply pending_remove_nil. apply Htimer. assumption.
  - pose proof (pending_remove_length id (requests s)). lia.
  - apply List.Forall_forall. intros r' Hr'.
    rewrite List.Forall_forall in Hcount. apply Hcount.
    apply (pending_remove_incl id). exact Hr'.
Qed.

(** A canceled load that completes only leaves the loads in flight. *)
Lemma remove_chain (id : nat) (s : state) :
  chain s -> chain (with_requests (remove_request id (requests s)) s).
Proof.
  intros (Hcons & Hsettled & (n & Hn & Hsched & Hpend & Htim) & Hrep).
  split; [apply remove_consistent; exact Hcons |]. split; [| split].
  - intros Hc. destruct (Hsettled Hc) as (H1 & H2 & H3). simpl.
    split; [exact H1 |]. split; [apply pending_remove_nil; exact H2 | exact H3].
  - exists n. simpl. repeat split; try assumption.
    intros Hne. apply Hpend. intros Hnil. apply Hne.
    apply pending_remove_nil. exact Hnil.
  - exact Hrep.
Qed.

(** What a load that can still report finds when it completes: no timer
    is pending, nothing has been reported, it is the only such load, and
    it was started with the current counter, after as many delays. *)
Lemma live_completion (id : nat) (r : Request) (s : state) :
  chain s -> find_request id (requests s) = Some r -> canceled r = false ->
  timers s = [] /\
  calls s = [] /\
  pending (remove_request id (requests s)) = [] /\
  request_retryCount r = retryCount s /\
  retryCount s <= maxRetries /\
  scheduled s = map (fun k => 1000 * k) (seq 0 (retryCount s)) /\
  model s = None /\ modelError s = None.
Proof.
  intros ((Hrc & Hlen & Htimer & Hone & Hcount) & Hsettled
          & (n & Hn & Hsched & Hpend & Htim) & (Hnone & _)) Hfind Hc.
  pose proof (pending_In _ _ (find_request_In _ _ _ Hfind) Hc) as Hin.
  assert (Hne : pending (requests s) <> [])
    by (intros Hnil; rewrite Hnil in Hin; destruct Hin).
  assert (Htimers : timers s = []).
  { destruct (timers s) as [| t l] eqn:Ht; [reflexivity |].
    destruct Htimer as [_ Hnil]; [congruence |]. contradiction. }
  assert (Hcalls : calls s = []).
  { destruct (calls s) as [| c l] eqn:Hcs; [reflexivity |].
    destruct Hsettled as (_ & Hnil & _); [congruence |]. contradiction. }
  repeat split.
  - exact Htimers.
  - exact Hcalls.
  - pose proof (pending_remove_found _ _ _ Hfind Hc) as Hlen'.
    destruct (pending (remove_request id (requests s))); [reflexivity |].
    simpl in Hlen'. lia.
  - rewrite List.Forall_forall in Hcount. apply Hcount. exact Hin.
  - exact Hrc.
  - rewrite <- (Hpend Hne). exact Hsched.
  - apply Hnone. exact Hcalls.
  - apply Hnone. exact Hcalls.
Qed.

Lemma on_success_chain (id : nat) (r : Request) (scene : Three.Object3D)
    (s : state) :
  find_request id (requests s) = Some r -> chain s ->
  chain (on_success r scene (with_requests (remove_request id (requests s)) s)).
Proof.
  intros Hfind Hs. unfold on_success.
  destruct (canceled r) eqn:Hc; [apply remove_chain; exact Hs |].
  destruct (live_completion id r s Hs Hfind Hc)
    as (Htimers & Hcalls & Hrest & Hr & Hrc & Hsched & _ & Herror).
  split.
  - pose proof (on_success_consistent id r scene s (proj1 Hs)) as H.
    unfold on_success in H. rewrite Hc in H. exact H.
  - split; [| split].
    + intros _. simpl. rewrite Hcalls, Hrest, Htimers. repeat split.
    + exists (retryCount s). simpl. rewrite Hrest, Htimers.
      repeat split; try assumption; intros H; exfalso; apply H; reflexivity.
    + simpl. rewrite Hcalls. simpl. split; [| split].
      * intros H. discriminate H.
      * intros sc [H | []]. injection H as <-.
        split; [reflexivity | exact Herror].
      * intros message [H | []]. discriminate H.
Qed.

Lemma on_failure_chain (id : nat) (r : Request) (err : JsValue) (s : state) :
  find_request id (requests s) = Some r -> chain s ->
  chain (on_failure r err (with_requests (remove_request id (requests s)) s)).
Proof.
  intros Hfind Hs.
  pose proof (on_failure_consistent id r err s Hfind (proj1 Hs)) as Hcons.
  unfold on_failure in *.
  destruct (canceled r) eqn:Hc; [apply remove_chain; exact Hs |].
  destruct (live_completion id r s Hs Hfind Hc)
    as (Htimers & Hcalls & Hrest & Hr & Hrc & Hsched & Hmodel & Herror).
  destruct (Nat.ltb (request_retryCount r) maxRetries) eqn:Hlt.
  - apply Nat.ltb_lt in Hlt. split; [exact Hcons |]. split; [| split].
    + simpl. rewrite Hcalls. intros H. exfalso. apply H. reflexivity.
    + exists (S (retryCount s)). rewrite Hr in Hlt.
      cbn [scheduled timers requests with_requests retryCount].
      rewrite Hrest, Htimers, Hsched, Hr.
      split; [lia |]. split; [| split].
      * rewrite seq_S, map_app. reflexivity.
      * intros H. exfalso. apply H. reflexivity.
      * intros _. reflexivity.
    + simpl. rewrite Hcalls. repeat split; try assumption; contradiction.
  - apply Nat.ltb_ge in Hlt.
    assert (Hmax : retryCount s = maxRetries) by lia.
    split; [exact Hcons |]. split; [| split].
    + intros _. simpl. rewrite Hcalls, Hrest, Htimers. repeat split.
    + exists (retryCount s). simpl. rewrite Hrest, Htimers.
      repeat split; try assumption; intros H; exfalso; apply H; reflexivity.
    + simpl. rewrite Hcalls. simpl. split; [| split].
      * intros H. discriminate H.
      * intros sc [H | []]. discriminate H.
      * intros message [H | []]. injection H as <-.
        split; [reflexivity |]. split; [exact Hmodel |].
        split; [exact Hmax |]. rewrite Hsched, Hmax. reflexivity.
Qed.

Lemma on_timer_chain (id : nat) (t : Timer) (s : state) :
  find_timer id (timers s) = Some t -> chain s ->
  chain (on_timer (with_timers (remove_timer id (timers s)) s)).
Proof.
  intros Hfind Hs.
  pose proof (on_timer_consistent id t s Hfind (proj1 Hs)) as Hcons.
  destruct Hs as ((Hrc & Hlen & Htimer & Hone & Hcount) & Hsettled
                  & (n & Hn & Hsched & Hpend & Htim) & Hrep).
  pose proof (find_timer_nonempty _ _ _ Hfind) as Hne.
  destruct (Htimer Hne) as [Hlt Hnil].
  pose proof (find_timer_single _ _ _ Hlen Hfind) as Hgone.
  assert (Hcalls : calls s = []).
  { destruct (calls s) as [| c l] eqn:Hcs; [reflexivity |].
    destruct Hsettled as (_ & _ & Hno); [congruence |]. contradiction. }
  destruct Hrep as (Hnone & _).
  destruct (Hnone Hcalls) as [Hmodel Herror].
  split; [exact Hcons |]. clear Hcons.
  unfold on_timer. simpl. destruct (mounted s).
  - unfold rerun_effect, run_effect.
    assert (Hfields :
      forall s0, calls (cleanup s0) = calls s0 /\
                 scheduled (cleanup s0) = scheduled s0 /\
                 retryCount (cleanup s0) = retryCount s0 /\
                 model (cleanup s0) = model s0 /\
                 modelError (cleanup s0) = modelError s0 /\
                 timers (cleanup s0) = timers s0).
    { intros s0. unfold cleanup. destruct (live s0); repeat split. }
    split; [| split].
    + simpl. rewrite (proj1 (Hfields _)). simpl. rewrite Hcalls.
      intros H. exfalso. apply H. reflexivity.
    + exists n. simpl.
      destruct (Hfields (mkState true (url s) (retryCount s + 1) (model s)
                  (modelError s) (live s) (requests s)
                  (remove_timer id (timers s)) (next_request s)
                  (next_timer s) (calls s) (scheduled s)))
        as (_ & -> & -> & _ & _ & ->).
      simpl. rewrite Hgone. repeat split; try assumption.
      * intros _. rewrite (Htim Hne). lia.
      * intros H. exfalso. apply H. reflexivity.
    + simpl.
      destruct (Hfields (mkState true (url s) (retryCount s + 1) (model s)
                  (modelError s) (live s) (requests s)
                  (remove_timer id (timers s)) (next_request s)
                  (next_timer s) (calls s) (scheduled s)))
        as (-> & _ & _ & -> & -> & _).
      simpl. rewrite Hcalls. repeat split; try assumption; contradiction.
  - split; [| split].
    + unfold settled. simpl. rewrite Hcalls.
      intros H. exfalso. apply H. reflexivity.
    + exists n. simpl. rewrite Hgone, Hnil. repeat split; try assumption;
        intros H; exfalso; apply H; reflexivity.
    + unfold reported. simpl. rewrite Hcalls.
      repeat split; try assumption; contradiction.
Qed.

Lemma unmount_chain (s : state) : chain s -> chain (unmount s).
Proof.
  intros Hs. pose proof (unmount_consistent s (proj1 Hs)) as Hcons.
  split; [exact Hcons |]. clear Hcons.
  destruct Hs as (_ & Hsettled & (n & Hn & Hsched & Hpend & Htim) & Hrep).
  unfold unmount. destruct (mounted s);
    [| split; [exact Hsettled | split; [exists n; tauto | exact Hrep]]].
  unfold cleanup. destruct (live s) as [l |]; simpl;
    [| split; [exact Hsettled | split; [exists n; tauto | exact Hrep]]].
  split; [| split].
  - intros Hc. destruct (Hsettled Hc) as (H1 & H2 & H3). simpl.
    split; [exact H1 |]. split; [apply pending_cancel_nil; exact H2 | exact H3].
  - exists n. simpl. repeat split; try assumption.
    intros Hne. apply Hpend. intros Hnil. apply Hne.
    apply pending_cancel_nil. exact Hnil.
  - exact Hrep.
Qed.

Lemma step_chain (s : state) (e : event) :
  is_url_change e = false -> chain s -> chain (step s e).
Proof.
  intros He Hs. destruct e as [id scene | id err | id | u |]; simpl.
  - destruct (find_request id (requests s)) as [r |] eqn:Hfind; [| exact Hs].
    apply on_success_chain; assumption.
  - destruct (find_request id (requests s)) as [r |] eqn:Hfind; [| exact Hs].
    apply on_failure_chain; assumption.
  - destruct (find_timer id (timers s)) as [t |] eqn:Hfind; [| exact Hs].
    apply (on_timer_chain id t); assumption.
  - discriminate He.
  - apply unmount_chain. exact Hs.
Qed.

Lemma run_chain (trace : list event) (s : state) :
  forallb (fun e => negb (is_url_change e)) trace = true ->
  chain s -> chain (run s trace).
Proof.
  revert s. induction trace as [| e trace IH]; intros s Hall Hs; simpl.
  - exact Hs.
  - simpl in Hall. apply andb_prop in Hall as [He Hall].
    apply IH; [exact Hall |]. apply step_chain; [| exact Hs].
    destruct (is_url_change e); [discriminate | reflexivity].
Qed.

End ModelLoaderChain.

(** ** [ModelLoader]: what a caller observes *)

Section ModelLoaderObserved.

Import ModelLoader.

(** X6.  As long as the [url] stays the same the loader reports at most
    once: whatever loads complete, timers fire or unmounting happens,
    [onLoad] and [onError] are called at most once between them, and once
    one has been called no load can still report and no timer is
    pending. *)
Theorem loader_reports_at_most_once (u : string) (trace : list event) :
  forallb (fun e => negb (is_url_change e)) trace = true ->
  let s := run (mount u) trace in
  length (calls s) <= 1 /\
  (calls s <> [] -> pending (requests s) = [] /\ timers s = []).
Proof.
  intros Hfixed s.
  pose proof (run_chain trace _ Hfixed (mount_chain u)) as (_ & Hsettled & _).
  fold s in Hsettled. unfold settled in Hsettled.
  destruct (calls s) as [| c l] eqn:Hcalls.
  - split; [simpl; lia |]. intros H. exfalso. apply H. reflexivity.
  - destruct Hsettled as (Hlen & Hpend & Htim); [congruence |].
    split; [lia |]. intros _. split; assumption.
Qed.

Lemma loader_reports_at_most_once_witness :
  let s :=
    run (mount "a.glb")
      [LoadFailed 0 (ErrorInstance "404"); TimerFired 0;
       LoadSucceeded 1 ModelContent.example_scene;
       LoadSucceeded 1 ModelContent.example_scene;
       TimerFired 0; LoadFailed 1 (ErrorInstance "404"); Unmounted] in
  length (calls s) <= 1 /\
  (calls s <> [] -> pending (requests s) = [] /\ timers s = []).
Proof.
  apply (loader_reports_at_most_once "a.glb"). reflexivity.
Defined.

Lemma backoff_prefix (n : nat) :
  n <= maxRetries ->
  map (fun k => 1000 * k) (seq 0 n) = firstn n [0; 1000; 2000].
Proof.
  unfold maxRetries. intros Hn.
  destruct n as [| [| [| [| n]]]]; try reflexivity. lia.
Qed.

(** X7.  As long as the [url] stays the same the retries back off
    linearly and stop after three: the delays passed to [setTimeout] so
    far are always the first [n] of 0 ms, 1000 ms, 2000 ms, for some [n]
    of at most 3. *)
Theorem loader_backoff_is_linear (u : string) (trace : list event) :
  forallb (fun e => negb (is_url_change e)) trace = true ->
  exists n,
    n <= 3 /\
    scheduled (run (mount u) trace) = firstn n [0; 1000; 2000].
Proof.
  intros Hfixed.
  pose proof (run_chain trace _ Hfixed (mount_chain u))
    as (_ & _ & (n & Hn & Hsched & _) & _).
  exists n. split; [exact Hn |]. rewrite Hsched. apply backoff_prefix. exact Hn.
Qed.

Lemma loader_backoff_is_linear_witness :
  exists n,
    n <= 3 /\
    scheduled
      (run (mount "a.glb")
         [LoadFailed 0 (ErrorInstance "404"); TimerFired 0;
          LoadFailed 1 (OtherValue None)])
    = firstn n [0; 1000; 2000].
Proof.
  apply (loader_backoff_is_linear "a.glb"). reflexivity.
Defined.

(** X8.  As long as the [url] stays the same the loader gives up only
    after all three retries: when [onError] has been called it is the
    only call, the counter is at 3, the delays 0 ms, 1000 ms and 2000 ms
    have all been scheduled and the message passed is the one the
    component displays; when [onLoad] has been called it is the only
    call, its argument is the model the component holds, and no error is
    held. *)
Theorem loader_report_meaning (u : string) (trace : list event) :
  forallb (fun e => negb (is_url_change e)) trace = true ->
  let s := run (mount u) trace in
  (forall message,
     In (OnError message) (calls s) ->
     calls s = [OnError message] /\
     modelError s = Some message /\
     retryCount s = 3 /\
     scheduled s = [0; 1000; 2000]) /\
  (forall scene,
     In (OnLoad scene) (calls s) ->
     calls s = [OnLoad scene] /\
     model s = Some scene /\
     modelError s = None).
Proof.
  intros Hfixed s.
  pose proof (run_chain trace _ Hfixed (mount_chain u))
    as (_ & Hsettled & _ & (_ & Hload & Herror)).
  fold s in Hsettled, Hload, Herror. unfold settled in Hsettled.
  assert (Hsingle : forall c, In c (calls s) -> calls s = [c]).
  { intros c Hin. destruct (calls s) as [| c' [| c'' l]] eqn:Hcalls.
    - destruct Hin.
    - destruct Hin as [-> | []]. reflexivity.
    - destruct Hsettled as (Hlen & _); [congruence |]. discriminate Hlen. }
  split.
  - intros message Hin. split; [apply Hsingle; exact Hin |].
    destruct (Herror message Hin) as (H1 & _ & H2 & H3).
    split; [exact H1 |]. split; [exact H2 | exact H3].
  - intros scene Hin. split; [apply Hsingle; exact Hin |].
    apply Hload. exact Hin.
Qed.

Lemma loader_report_meaning_witness :
  let s :=
    run (mount "a.glb")
      [LoadFailed 0 (ErrorInstance "404"); TimerFired 0;
       LoadFailed 1 (ErrorInstance "404"); TimerFired 1;
       LoadFailed 2 (ErrorInstance "404"); TimerFired 2;
       LoadFailed 3 (ErrorInstance "gone")] in
  calls s = [OnError "gone"] /\
  modelError s = Some "gone" /\
  retryCount s = 3 /\
  scheduled s = [0; 1000; 2000].
Proof.
  intros s.
  apply (loader_report_meaning "a.glb"
           [LoadFailed 0 (ErrorInstance "404"); TimerFired 0;
            LoadFailed 1 (ErrorInstance "404"); TimerFired 1;
            LoadFailed 2 (ErrorInstance "404"); TimerFired 2;
            LoadFailed 3 (ErrorInstance "gone")]).
  - reflexivity.
  - vm_compute. left. reflexivity.
Defined.

Lemma loading_text_cases (n : nat) :
  loading_text n
  = nth n ["Loading model"; "Loading model (Attempt 2)";
           "Loading model (Attempt 3)"] "Failed to load model".
Proof. destruct n as [| [| [| [| n]]]]; vm_compute; reflexivity. Qed.

(** X9.  What the loader displays while its [url] stays the same.
    Before any report: a spinner with [Loading model] on the first
    attempt, [Loading model (Attempt 2)] and [(Attempt 3)] on the next
    two, and already [Failed to load model] during the fourth.  After
    [onLoad]: nothing.  After [onError]: the message, unless it is empty,
    in which case the spinner with [Failed to load model] stays. *)
Theorem loader_view (u : string) (trace : list event) :
  forallb (fun e => negb (is_url_change e)) trace = true ->
  let s := run (mount u) trace in
  (calls s = [] ->
   render s
   = LoadingView
       (nth (retryCount s)
          ["Loading model"; "Loading model (Attempt 2)";
           "Loading model (Attempt 3)"] "Failed to load model")) /\
  (forall scene, In (OnLoad scene) (calls s) -> render s = NoView) /\
  (forall message,
     In (OnError message) (calls s) ->
     render s
     = if String.eqb message "" then LoadingView "Failed to load model"
       else ErrorView message).
Proof.
  intros Hfixed s.
  pose proof (run_chain trace _ Hfixed (mount_chain u))
    as ((Hrc & _) & _ & _ & (Hnone & Hload & Herror)).
  fold s in Hrc, Hnone, Hload, Herror.
  split; [| split].
  - intros Hcalls. destruct (Hnone Hcalls) as [Hmodel Herr].
    unfold render. rewrite Herr, Hmodel. simpl.
    rewrite loading_text_cases. reflexivity.
  - intros scene Hin. destruct (Hload scene Hin) as [Hmodel Herr].
    unfold render. rewrite Herr, Hmodel. reflexivity.
  - intros message Hin.
    destruct (Herror message Hin) as (Herr & Hmodel & Hmax & _).
    unfold render. rewrite Herr. simpl.
    destruct (String.eqb message "") eqn:Hempty; simpl; [| reflexivity].
    rewrite Hmodel, Hmax. reflexivity.
Qed.

Lemma loader_view_witness :
  let s :=
    run (mount "a.glb")
      [LoadFailed 0 (ErrorInstance "404"); TimerFired 0;
       LoadFailed 1 (ErrorInstance "404"); TimerFired 1;
       LoadFailed 2 (ErrorInstance "404"); TimerFired 2] in
  pending (requests s)
  = [ {| request_id := 3; request_url := "a.glb";
         request_retryCount := 3; canceled := false |} ] /\
  render s = LoadingView "Failed to load model".
Proof.
  intros s. split; [vm_compute; reflexivity |].
  apply (loader_view "a.glb"
           [LoadFailed 0 (ErrorInstance "404"); TimerFired 0;
            LoadFailed 1 (ErrorInstance "404"); TimerFired 1;
            LoadFailed 2 (ErrorInstance "404"); TimerFired 2]).
  - reflexivity.
  - vm_compute. reflexivity.
Defined.

End ModelLoaderObserved.

(** ** [ModelLoader]: unmounting and a new [url] *)

Section ModelLoaderLifecycle.

Import ModelLoader.

Lemma pending_nil_canceled (id : nat) (l : list Request) (r : Request) :
  pending l = [] -> find_request id l = Some r -> canceled r = true.
Proof.
  intros Hnil Hfind. destruct (canceled r) eqn:Hc; [reflexivity | exfalso].
  pose proof (pending_In _ _ (find_request_In _ _ _ Hfind) Hc) as Hin.
  rewrite Hnil in Hin. destruct Hin.
Qed.

(** On an unmounted component in which no load can report, no event
    changes what the application sees. *)
Lemma step_unmounted (s : state) (e : event) :
  mounted s = false -> pending (requests s) = [] ->
  observable (step s e) = observable s /\
  mounted (step s e) = false /\
  pending (requests (step s e)) = [].
Proof.
  intros Hm Hnil. destruct e as [id scene | id err | id | u |]; simpl.
  - destruct (find_request id (requests s)) as [r |] eqn:Hfind;
      [| repeat split; assumption].
    unfold on_success. rewrite (pending_nil_canceled _ _ _ Hnil Hfind).
    simpl. repeat split; [exact Hm | apply pending_remove_nil; exact Hnil].
  - destruct (find_request id (requests s)) as [r |] eqn:Hfind;
      [| repeat split; assumption].
    unfold on_failure. rewrite (pending_nil_canceled _ _ _ Hnil Hfind).
    simpl. repeat split; [exact Hm | apply pending_remove_nil; exact Hnil].
  - destruct (find_timer id (timers s)) as [t |] eqn:Hfind;
      [| repeat split; assumption].
    unfold on_timer. simpl. rewrite Hm. simpl. repeat split; assumption.
  - unfold set_url. rewrite Hm. simpl. repeat split; assumption.
  - unfold unmount. rewrite Hm. repeat split; assumption.
Qed.

Lemma run_unmounted (trace : list event) (s : state) :
  mounted s = false -> pending (requests s) = [] ->
  observable (run s trace) = observable s.
Proof.
  revert s. induction trace as [| e trace IH]; intros s Hm Hnil; simpl.
  - reflexivity.
  - destruct (step_unmounted s e Hm Hnil) as (Hobs & Hm' & Hnil').
    rewrite (IH _ Hm' Hnil'). exact Hobs.
Qed.

(** A component that has been unmounted stays so, and no load of it can
    report. *)
Lemma step_stays_unmounted (s : state) (e : event) :
  live_only s ->
  (mounted s = false -> pending (requests s) = []) ->
  mounted (step s e) = false -> pending (requests (step s e)) = [].
Proof.
  intros Hlive Hquiet Hafter.
  destruct (mounted s) eqn:Hm.
  - destruct e as [id scene | id err | id | u |]; simpl in *.
    + destruct (find_request id (requests s)) as [r |];
        [| congruence].
      unfold on_success in Hafter. destruct (canceled r); simpl in Hafter;
        congruence.
    + destruct (find_request id (requests s)) as [r |]; [| congruence].
      unfold on_failure in Hafter. destruct (canceled r);
        [simpl in Hafter; congruence |].
      destruct (Nat.ltb (request_retryCount r) maxRetries);
        simpl in Hafter; congruence.
    + destruct (find_timer id (timers s)) as [t |]; [| congruence].
      unfold on_timer in Hafter. simpl in Hafter. rewrite Hm in Hafter.
      unfold rerun_effect, run_effect in Hafter. simpl in Hafter.
      unfold cleanup in Hafter. simpl in Hafter.
      destruct (live s); simpl in Hafter; congruence.
    + unfold set_url in Hafter. rewrite Hm in Hafter.
      destruct (negb (String.eqb u (url s))); simpl in Hafter;
        [| congruence].
      unfold rerun_effect, run_effect, cleanup in Hafter. simpl in Hafter.
      destruct (live s); simpl in Hafter; congruence.
    + unfold unmount. rewrite Hm. simpl.
      apply cleanup_pending_nil. apply live_only_ids. exact Hlive.
  - apply (step_unmounted s e Hm (Hquiet eq_refl)).
Qed.

Lemma run_quiet (trace : list event) (s : state) :
  live_only s ->
  (mounted s = false -> pending (requests s) = []) ->
  mounted (run s trace) = false -> pending (requests (run s trace)) = [].
Proof.
  revert s. induction trace as [| e trace IH]; intros s Hlive Hquiet; simpl.
  - exact Hquiet.
  - apply IH.
    + apply step_live_only. exact Hlive.
    + apply step_stays_unmounted; assumption.
Qed.

Lemma run_app (s : state) (t1 t2 : list event) :
  run s (t1 ++ t2) = run (run s t1) t2.
Proof. unfold run. apply fold_left_app. Qed.

Lemma unmount_mounted (s : state) : mounted (unmount s) = false.
Proof.
  unfold unmount. destruct (mounted s) eqn:Hm; [reflexivity | exact Hm].
Qed.

(** X10.  After the loader has been unmounted nothing it started changes
    what the application sees: whatever happened before and whatever
    loads complete, timers fire or props arrive afterwards, the calls of
    [onLoad] and [onError], the model, the error, the counter and the
    scheduled delays are those at the time of unmounting. *)
Theorem nothing_after_unmount (u : string) (before after : list event) :
  observable (run (mount u) (before ++ Unmounted :: after))
  = observable (run (mount u) (before ++ [Unmounted])).
Proof.
  change (Unmounted :: after) with ([Unmounted] ++ after).
  rewrite app_assoc, (run_app _ (before ++ [Unmounted]) after).
  apply run_unmounted.
  - rewrite run_app. simpl. apply unmount_mounted.
  - apply run_quiet.
    + apply mount_live_only.
    + intros H. discriminate H.
    + rewrite run_app. simpl. apply unmount_mounted.
Qed.

(** X11 is [stale_load_result_not_applied] above; here it is at work:
    the [url] changes while the first load is in flight, and when that
    load succeeds after all, its scene is dropped. *)
Lemma stale_load_result_not_applied_witness :
  let s := run (mount "a.glb") [UrlChanged "b.glb"] in
  (forall scene,
     step s (LoadSucceeded 0 scene)
     = with_requests (remove_request 0 (requests s)) s) /\
  (forall err,
     step s (LoadFailed 0 err)
     = with_requests (remove_request 0 (requests s)) s).
Proof.
  apply (stale_load_result_not_applied "a.glb" [UrlChanged "b.glb"] 0
           {| request_id := 0; request_url := "a.glb";
              request_retryCount := 0; canceled := true |}).
  - reflexivity.
  - discriminate.
Defined.

(** *** A new [url] restarts the loading *)

Lemma mount_fresh_ids (u : string) : fresh_ids (mount u).
Proof. unfold fresh_ids, mount, run_effect. simpl. repeat constructor. Qed.

Lemma cancel_id (l : nat) (r : Request) : request_id (cancel l r) = request_id r.
Proof. unfold cancel. destruct (Nat.eqb (request_id r) l); reflexivity. Qed.

Lemma remove_request_incl (id : nat) (l : list Request) :
  incl (remove_request id l) l.
Proof.
  induction l as [| a l IH]; simpl; [apply incl_refl |].
  destruct (Nat.eqb (request_id a) id); [apply incl_tl, incl_refl |].
  apply incl_cons; [left; reflexivity | apply incl_tl; exact IH].
Qed.

Lemma rerun_effect_fresh_ids (s : state) :
  fresh_ids s -> fresh_ids (rerun_effect s).
Proof.
  unfold fresh_ids, rerun_effect, run_effect. intros H. simpl.
  assert (Hold : Forall (fun r => request_id r < next_request s)
                   (requests (cleanup s)) /\
                 next_request (cleanup s) = next_request s).
  { unfold cleanup. destruct (live s) as [l |]; simpl; [| tauto].
    split; [| reflexivity]. apply List.Forall_forall. intros r Hr.
    apply in_map_iff in Hr as (r0 & <- & Hr0). rewrite cancel_id.
    rewrite List.Forall_forall in H. apply H. exact Hr0. }
  destruct Hold as [Hold ->]. apply Forall_app. split.
  - eapply List.Forall_impl; [| exact Hold]. simpl. intros. lia.
  - repeat constructor.
Qed.

Lemma step_fresh_ids (s : state) (e : event) :
  fresh_ids s -> fresh_ids (step s e).
Proof.
  intros Hs.
  assert (Hrem : forall id, fresh_ids (with_requests (remove_request id (requests s)) s)).
  { intros id. unfold fresh_ids in *. simpl.
    apply List.Forall_forall. intros r Hr.
    rewrite List.Forall_forall in Hs. apply Hs.
    apply (remove_request_incl id). exact Hr. }
  destruct e as [id scene | id err | id | u |]; simpl.
  - destruct (find_request id (requests s)) as [r |]; [| exact Hs].
    unfold on_success. destruct (canceled r); apply Hrem.
  - destruct (find_request id (requests s)) as [r |]; [| exact Hs].
    unfold on_failure. destruct (canceled r); [apply Hrem |].
    destruct (Nat.ltb (request_retryCount r) maxRetries); apply Hrem.
  - destruct (find_timer id (timers s)) as [t |]; [| exact Hs].
    unfold on_timer. simpl. destruct (mounted s); [| exact Hs].
    apply rerun_effect_fresh_ids. exact Hs.
  - unfold set_url. destruct (mounted s && negb (String.eqb u (url s)));
      [| exact Hs].
    apply rerun_effect_fresh_ids. exact Hs.
  - unfold unmount. destruct (mounted s); [| exact Hs].
    unfold fresh_ids, cleanup in *. destruct (live s) as [l |]; simpl;
      [| exact Hs].
    apply List.Forall_forall. intros r Hr.
    apply in_map_iff in Hr as (r0 & <- & Hr0). rewrite cancel_id.
    rewrite List.Forall_forall in Hs. apply Hs. exact Hr0.
Qed.

Lemma run_fresh_ids (trace : list event) (s : state) :
  fresh_ids s -> fresh_ids (run s trace).
Proof.
  revert s. induction trace as [| e trace IH]; intros s Hs; simpl.
  - exact Hs.
  - apply IH. apply step_fresh_ids. exact Hs.
Qed.

Lemma find_request_fresh (id : nat) (l : list Request) (r : Request) :
  Forall (fun r0 => request_id r0 < id) l -> request_id r = id ->
  find_request id (l ++ [r]) = Some r /\
  remove_request id (l ++ [r]) = l.
Proof.
  intros Hl Hr. induction l as [| a l IH]; simpl.
  - rewrite Hr, Nat.eqb_refl. split; reflexivity.
  - inversion Hl as [| ? ? Ha Hrest]; subst.
    assert (Hne : Nat.eqb (request_id a) (request_id r) = false)
      by (apply Nat.eqb_neq; lia).
    unfold find_request in *. simpl. rewrite Hne.
    destruct (IH Hrest) as [Hfind Hrem]. rewrite Hrem. split; [exact Hfind | reflexivity].
Qed.

(** X12.  A new [url] on a mounted loader restarts the loading, whatever
    happened before: afterwards exactly one load can report, it fetches
    the new [url], and when it succeeds its scene becomes the model and
    [onLoad] is called with it. *)
Theorem url_change_restarts_loading (u : string) (trace : list event)
    (u' : string) (scene : Three.Object3D) :
  let s := run (mount u) trace in
  mounted s = true -> u' <> url s ->
  let s' := step s (UrlChanged u') in
  let fresh :=
    {| request_id := next_request s; request_url := u';
       request_retryCount := retryCount s; canceled := false |} in
  url s' = u' /\
  pending (requests s') = [fresh] /\
  model (step s' (LoadSucceeded (next_request s) scene)) = Some scene /\
  calls (step s' (LoadSucceeded (next_request s) scene))
  = calls s ++ [OnLoad scene].
Proof.
  intros s Hm Hu s' fresh.
  pose proof (run_live_only trace _ (mount_live_only u)) as Hlive.
  pose proof (run_fresh_ids trace _ (mount_fresh_ids u)) as Hfresh.
  fold s in Hlive, Hfresh.
  assert (Hs' : s' = rerun_effect
            (mkState (mounted s) u' (retryCount s) (model s) (modelError s)
               (live s) (requests s) (timers s) (next_request s)
               (next_timer s) (calls s) (scheduled s))).
  { unfold s'. simpl. unfold set_url. rewrite Hm.
    assert (Hneq : String.eqb u' (url s) = false)
      by (apply String.eqb_neq; exact Hu).
    rewrite Hneq. reflexivity. }
  set (s0 := mkState (mounted s) u' (retryCount s) (model s) (modelError s)
               (live s) (requests s) (timers s) (next_request s)
               (next_timer s) (calls s) (scheduled s)) in Hs'.
  assert (Hnil : pending (requests (cleanup s0)) = []).
  { apply cleanup_pending_nil. apply (live_only_ids s). exact Hlive. }
  assert (Hfields : url (cleanup s0) = u' /\
                    retryCount (cleanup s0) = retryCount s /\
                    next_request (cleanup s0) = next_request s /\
                    calls (cleanup s0) = calls s /\
                    Forall (fun r => request_id r < next_request s)
                      (requests (cleanup s0))).
  { unfold cleanup, s0. simpl. destruct (live s) as [l |]; simpl;
      repeat split; try exact Hfresh.
    apply List.Forall_forall. intros r Hr.
    apply in_map_iff in Hr as (r0 & <- & Hr0). rewrite cancel_id.
    unfold fresh_ids in Hfresh. rewrite List.Forall_forall in Hfresh.
    apply Hfresh. exact Hr0. }
  destruct Hfields as (Hurl & Hrc & Hnext & Hcalls & Hold).
  assert (Hreq : requests s' = requests (cleanup s0) ++ [fresh]).
  { rewrite Hs'. unfold rerun_effect, run_effect. simpl.
    rewrite Hurl, Hrc, Hnext. reflexivity. }
  destruct (find_request_fresh (next_request s) _ fresh Hold eq_refl)
    as [Hfind Hrem].
  split; [rewrite Hs'; unfold rerun_effect, run_effect; simpl; exact Hurl |].
  split; [rewrite Hreq, pending_app, Hnil; reflexivity |].
  simpl step. rewrite Hreq, Hfind. unfold on_success. simpl.
  split; [reflexivity |].
  rewrite Hs'. unfold rerun_effect, run_effect. simpl. rewrite Hcalls.
  reflexivity.
Qed.

Lemma url_change_restarts_loading_witness :
  let s :=
    run (mount "a.glb")
      [LoadFailed 0 (ErrorInstance "404"); TimerFired 0] in
  let s' := step s (UrlChanged "b.glb") in
  model (step s' (LoadSucceeded 2 ModelContent.example_scene))
  = Some ModelContent.example_scene.
Proof.
  intros s s'.
  apply (url_change_restarts_loading "a.glb"
           [LoadFailed 0 (ErrorInstance "404"); TimerFired 0]
           "b.glb" ModelContent.example_scene).
  - reflexivity.
  - discriminate.
Defined.

End ModelLoaderLifecycle.

(** ** [ModelContent]: toggling, releasing and the side table *)

Section ModelContentLifecycle.

Import Three ModelContent.
Local Open Scope R_scope.

Lemma toggle_same_frame (matte : MaterialRef) (table : gmap nat MaterialRef)
    (n : Node) :
  same_frame n (toggle matte table n).
Proof.
  unfold same_frame, toggle, toggle_material, own_points.
  destruct (kind n) eqn:Hk; simpl; rewrite ?Hk; repeat split.
Qed.

Lemma toggle_oid (matte : MaterialRef) (table : gmap nat MaterialRef)
    (n : Node) :
  oid (toggle matte table n) = oid n /\
  is_mesh (toggle matte table n) = is_mesh n.
Proof.
  unfold toggle, toggle_material, is_mesh.
  destruct (kind n) eqn:Hk; simpl; rewrite ?Hk; split; reflexivity.
Qed.

Lemma swap_oid (matte : MaterialRef) (n : Node) :
  oid (swap matte n) = oid n /\ is_mesh (swap matte n) = is_mesh n.
Proof.
  unfold swap, record_and_swap, is_mesh.
  destruct (kind n) eqn:Hk; simpl; rewrite ?Hk; split; reflexivity.
Qed.

Lemma object_ids_map_nodes (f : Node -> Node) (o : Object3D) :
  (forall n, oid (f n) = oid n) -> object_ids (map_nodes f o) = object_ids o.
Proof.
  intros Hf. unfold object_ids. rewrite nodes_map_nodes, map_map.
  apply map_ext. exact Hf.
Qed.

Lemma root_map_nodes (f : Node -> Node) (o : Object3D) :
  root (map_nodes f o) = f (root o).
Proof. destruct o; reflexivity. Qed.

(** One toggle keeps the model where it is and as it is shaped. *)
Lemma toggleTextures_geometry (s : state) (m : Object3D) :
  model s = Some m ->
  exists m',
    model (toggleTextures s) = Some m' /\
    setFromObject m' = setFromObject m /\
    position (root m') = position (root m) /\
    object_ids m' = object_ids m.
Proof.
  intros Hm. rewrite (toggleTextures_state s m Hm). simpl.
  eexists. split; [reflexivity |]. split; [| split].
  - unfold setFromObject.
    rewrite (world_points_map_nodes _ _ (toggle_same_frame _ _)). reflexivity.
  - rewrite root_map_nodes.
    destruct (toggle_same_frame (matteMaterial s) (materials s) (root m))
      as (_ & Hpos & _). exact Hpos.
  - apply object_ids_map_nodes. intros n. apply toggle_oid.
Qed.

Lemma toggleTextures_fields (s : state) :
  materials (toggleTextures s) = materials s /\
  matteMaterial (toggleTextures s) = matteMaterial s /\
  errors (toggleTextures s) = errors s.
Proof. unfold toggleTextures. destruct (model s); repeat split. Qed.

Lemma toggles_geometry (n : nat) (s : state) (m : Object3D) :
  model s = Some m ->
  exists m',
    model (Nat.iter n toggleTextures s) = Some m' /\
    setFromObject m' = setFromObject m /\
    position (root m') = position (root m) /\
    object_ids m' = object_ids m.
Proof.
  intros Hm. induction n as [| n IH]; simpl.
  - exists m. repeat split. exact Hm.
  - destruct IH as (m1 & Hm1 & Hbox & Hpos & Hids).
    destruct (toggleTextures_geometry _ m1 Hm1) as (m2 & Hm2 & Hbox2 & Hpos2 & Hids2).
    exists m2. split; [exact Hm2 |].
    split; [congruence |]. split; congruence.
Qed.

(** X13.  The toggle never moves or reshapes the model and never touches
    the side table: after one call the model has the same objects, the
    same position and the same bounding box, and the table holds what it
    held. *)
Theorem toggle_keeps_geometry (s : state) (m : Object3D) :
  model s = Some m ->
  (exists m',
     model (toggleTextures s) = Some m' /\
     setFromObject m' = setFromObject m /\
     position (root m') = position (root m) /\
     object_ids m' = object_ids m) /\
  materials (toggleTextures s) = materials s.
Proof.
  intros Hm. split; [apply toggleTextures_geometry; exact Hm |].
  apply toggleTextures_fields.
Qed.

Lemma toggle_keeps_geometry_witness :
  let s := handleModelLoad example_scene (mount (Material 0)) in
  materials (toggleTextures s) = materials s.
Proof.
  intros s.
  apply (toggle_keeps_geometry s
           (add_position_y
              (neg (y_of (min (setFromObject
                                 (map_nodes (swap (Material 0)) example_scene)))))
              (map_nodes (swap (Material 0)) example_scene))).
  unfold s. rewrite handleModelLoad_state. reflexivity.
Defined.

Lemma map_nodes_add_position_y {A : Type} (g : Node -> A) (d : number)
    (o : Object3D) :
  (forall i k p l c r p', g (mkNode i k p l c r) = g (mkNode i k p' l c r)) ->
  map g (nodes (add_position_y d o)) = map g (nodes o).
Proof.
  intros Hg. destruct o as [[i k [[px py] pz] l c r] ch]. simpl.
  f_equal. apply Hg.
Qed.

(** X14.  The alignment of a load is not repeated or undone by the
    toggle: after the load and any number of calls of the toggle the
    model has the objects of the loaded scene, and the position and the
    bounding box of the graph the load stored, which is the swapped graph
    translated by the negative of the lowest Y of its box. *)
Theorem placed_once_through_toggles (scene : Object3D) (s : state) (n : nat) :
  let loaded :=
    add_position_y (neg (y_of (min (setFromObject scene))))
      (map_nodes (swap (matteMaterial s)) scene) in
  exists m,
    model (Nat.iter n toggleTextures (handleModelLoad scene s)) = Some m /\
    setFromObject m = setFromObject loaded /\
    position (root m)
      = (x_of (position (root scene)),
         add (y_of (position (root scene)))
           (neg (y_of (min (setFromObject scene)))),
         z_of (position (root scene))) /\
    object_ids m = object_ids scene.
Proof.
  intros loaded.
  assert (Hload : model (handleModelLoad scene s) = Some loaded).
  { rewrite handleModelLoad_state. simpl.
    rewrite setFromObject_swap. reflexivity. }
  destruct (toggles_geometry n _ _ Hload) as (m & Hm & Hbox & Hpos & Hids).
  exists m. split; [exact Hm |]. split; [exact Hbox |]. split.
  - rewrite Hpos. unfold loaded. rewrite position_add_position_y.
    rewrite root_map_nodes.
    destruct (swap_same_frame (matteMaterial s) (root scene)) as (_ & -> & _).
    reflexivity.
  - rewrite Hids. unfold loaded, object_ids.
    rewrite (map_nodes_add_position_y oid) by reflexivity.
    fold (object_ids (map_nodes (swap (matteMaterial s)) scene)).
    apply object_ids_map_nodes. intros n0. apply swap_oid.
Qed.

(** *** A model the side table knows nothing about *)

Lemma toggle_unrecorded (matte : MaterialRef) (table : gmap nat MaterialRef)
    (n : Node) :
  table !! oid n = None ->
  mesh_material (toggle matte table n)
  = match mesh_material n with
    | Some (id, _) => Some (id, matte)
    | None => None
    end /\
  toggle matte table (toggle matte table n) = toggle matte table n.
Proof.
  intros Hnone. destruct n as [i k p l c r]. simpl in Hnone.
  unfold mesh_material, toggle, toggle_material.
  destruct k as [m corners |]; simpl; [| split; reflexivity].
  rewrite Hnone. simpl.
  destruct (decide (m = matte)) as [-> | Hne]; simpl.
  - rewrite decide_True by reflexivity. split; reflexivity.
  - rewrite decide_True by reflexivity. split; reflexivity.
Qed.

(** X15.  Where the side table holds nothing for the objects of the
    model, the toggle falls back on the current material: one call puts
    the matte material on every mesh, and every further call changes
    nothing. *)
Theorem toggle_without_records (s : state) (m : Object3D) :
  model s = Some m ->
  (forall id, In id (object_ids m) -> materials s !! id = None) ->
  current_materials (toggleTextures s)
    = map (fun p => (fst p, matteMaterial s)) (mesh_materials m) /\
  toggleTextures (toggleTextures s) = toggleTextures s.
Proof.
  intros Hm Hnone.
  assert (Hnode : forall n, In n (nodes m) -> materials s !! oid n = None).
  { intros n Hn. apply Hnone. unfold object_ids. apply in_map. exact Hn. }
  split.
  - rewrite (toggleTextures_state s m Hm). unfold current_materials. simpl.
    rewrite mesh_materials_map_nodes. unfold mesh_materials.
    clear Hnone Hm. unfold omap.
    induction (nodes m) as [| n l IH]; simpl; [reflexivity |].
    destruct (toggle_unrecorded (matteMaterial s) (materials s) n
                (Hnode n (or_introl eq_refl))) as [-> _].
    rewrite IH by (intros n' Hn'; apply Hnode; right; exact Hn').
    destruct (mesh_material n) as [[id mat] |]; reflexivity.
  - rewrite (toggleTextures_state (toggleTextures s)
               (map_nodes (toggle (matteMaterial s) (materials s)) m)).
    2:{ rewrite (toggleTextures_state s m Hm). reflexivity. }
    rewrite (toggleTextures_state s m Hm). simpl. f_equal. f_equal.
    rewrite map_nodes_compose. apply map_nodes_ext. intros n Hn.
    apply toggle_unrecorded. apply Hnode. exact Hn.
Qed.

Lemma toggle_without_records_witness :
  let s :=
    {| model := Some example_scene; materials := ∅;
       matteMaterial := Material 0; errors := [] |} in
  current_materials (toggleTextures s) = [(1%nat, Material 0)] /\
  toggleTextures (toggleTextures s) = toggleTextures s.
Proof.
  intros s.
  apply (toggle_without_records s example_scene).
  - reflexivity.
  - intros id _. apply lookup_empty.
Defined.

End ModelContentLifecycle.

(** ** [ModelContent]: what a load prepares and what the cleanup releases *)

Section ModelContentTeardown.

Import Three ModelContent.

Lemma fold_disposals (table : gmap nat MaterialRef) (l : list Node)
    (released : list Disposal) :
  fold_left (fun log n => log ++ disposals table n) l released
  = released ++ flat_map (disposals table) l.
Proof.
  revert released. induction l as [| n l IH]; intros released; simpl.
  - rewrite app_nil_r. reflexivity.
  - rewrite IH, app_assoc. reflexivity.
Qed.

(** The cleanup leaves the objects as they are and releases, object by
    object in traversal order, what [disposals] lists. *)
Lemma teardown_released (s : state) (m : Object3D) :
  teardown (Some m) s
  = ({| model := None; materials := materials s;
        matteMaterial := matteMaterial s; errors := errors s |},
     flat_map (disposals (materials s)) (nodes m)).
Proof.
  unfold teardown.
  rewrite (traverse_separable (dispose (materials s)) (fun n => n)
             (fun n log => log ++ disposals (materials s) n)
             (fun n log => eq_refl)).
  simpl. rewrite fold_disposals. reflexivity.
Qed.

Lemma disposals_ext (table : gmap nat MaterialRef) (n n' : Node) :
  oid n' = oid n -> is_mesh n' = is_mesh n ->
  disposals table n' = disposals table n.
Proof.
  unfold disposals, is_mesh. intros Hid Hmesh. rewrite Hid.
  destruct (kind n), (kind n'); try discriminate; reflexivity.
Qed.

Lemma disposals_add_position_y (table : gmap nat MaterialRef) (d : number)
    (o : Object3D) :
  flat_map (disposals table) (nodes (add_position_y d o))
  = flat_map (disposals table) (nodes o).
Proof.
  destruct o as [[i k [[px py] pz] l c r] ch]. reflexivity.
Qed.

Lemma disposals_map_nodes (table : gmap nat MaterialRef) (f : Node -> Node)
    (o : Object3D) :
  (forall n, oid (f n) = oid n /\ is_mesh (f n) = is_mesh n) ->
  flat_map (disposals table) (nodes (map_nodes f o))
  = flat_map (disposals table) (nodes o).
Proof.
  intros Hf. rewrite nodes_map_nodes.
  induction (nodes o) as [| n l IH]; simpl; [reflexivity |].
  rewrite IH. f_equal. apply disposals_ext; apply Hf.
Qed.

(** With every mesh recorded, releasing the objects of a scene is
    releasing each mesh's geometry and recorded material. *)
Lemma disposals_recorded (table : gmap nat MaterialRef) (l : list Node) :
  (forall n m corners,
     In n l -> kind n = Mesh m corners -> table !! oid n = Some m) ->
  flat_map (disposals table) l
  = flat_map (fun p => [DisposeGeometry (fst p); DisposeMaterial (snd p)])
      (omap mesh_material l).
Proof.
  unfold omap. induction l as [| n l IH]; intros Hrec; simpl; [reflexivity |].
  rewrite IH by (intros n' m c Hn'; apply Hrec; right; exact Hn').
  destruct (kind n) as [m corners |] eqn:Hk.
  - assert (Hmat : mesh_material n = Some (oid n, m))
      by (unfold mesh_material; rewrite Hk; reflexivity).
    rewrite Hmat. unfold disposals at 1.
    rewrite Hk, (Hrec n m corners (or_introl eq_refl) Hk). reflexivity.
  - assert (Hmat : mesh_material n = None)
      by (unfold mesh_material; rewrite Hk; reflexivity).
    rewrite Hmat. unfold disposals at 1. rewrite Hk. reflexivity.
Qed.

(** After a load the toggles alternate between two states. *)
Lemma toggles_alternate (scene : Object3D) (s : state) (n : nat) :
  List.NoDup (object_ids scene) ->
  Nat.iter n toggleTextures (handleModelLoad scene s)
  = handleModelLoad scene s \/
  Nat.iter n toggleTextures (handleModelLoad scene s)
  = toggleTextures (handleModelLoad scene s).
Proof.
  intros Hnodup. induction n as [| n IH]; simpl; [left; reflexivity |].
  destruct IH as [-> | ->].
  - right. reflexivity.
  - left. apply toggle_twice_is_load. exact Hnodup.
Qed.

(** X16.  What the cleanup releases after a load, however often the
    textures were toggled in between.  One run of the cleanup releases,
    for every mesh of the loaded scene in traversal order, its geometry
    and then the material it was loaded with; the material a mesh
    currently carries plays no part, so the shared matte material is
    released only if a mesh was loaded with it.  Unmounting is one run.
    A change of [url] is two runs with the same model, so everything is
    released twice.  Either way there is no model afterwards, and the
    side table still holds every entry. *)
Theorem teardown_releases_recorded (scene : Object3D) (s : state) (n : nat) :
  List.NoDup (object_ids scene) ->
  let current := Nat.iter n toggleTextures (handleModelLoad scene s) in
  snd (cleanup_on_unmount current) = loaded_disposals scene /\
  snd (cleanup_on_url_change current)
  = loaded_disposals scene ++ loaded_disposals scene /\
  model (fst (cleanup_on_unmount current)) = None /\
  model (fst (cleanup_on_url_change current)) = None /\
  materials (fst (cleanup_on_unmount current))
  = materials (handleModelLoad scene s) /\
  materials (fst (cleanup_on_url_change current))
  = materials (handleModelLoad scene s).
Proof.
  intros Hnodup current.
  pose proof (load_records_materials scene s) as Hrec.
  assert (Hcases :
    exists f,
      (forall n0, oid (f n0) = oid n0 /\ is_mesh (f n0) = is_mesh n0) /\
      exists d,
        model current = Some (add_position_y d (map_nodes f scene)) /\
        materials current = materials (handleModelLoad scene s)).
  { destruct (toggles_alternate scene s n Hnodup) as [H | H];
      unfold current; rewrite H.
    - exists (swap (matteMaterial s)). split; [apply swap_oid |].
      eexists. rewrite handleModelLoad_state. simpl. split; reflexivity.
    - exists (fun n0 => toggle (matteMaterial s)
                          (materials (handleModelLoad scene s))
                          (swap (matteMaterial s) n0)).
      split.
      + intros n0.
        destruct (toggle_oid (matteMaterial s)
                    (materials (handleModelLoad scene s))
                    (swap (matteMaterial s) n0)) as [-> ->].
        apply swap_oid.
      + eexists. split; [| apply toggleTextures_fields].
        rewrite handleModelLoad_state.
        erewrite toggleTextures_state by reflexivity. simpl.
        rewrite toggle_add_position_y, map_nodes_compose. reflexivity. }
  destruct Hcases as (f & Hf & d & Hmodel & Htable).
  assert (Hreleased :
    flat_map (disposals (materials current))
      (nodes (add_position_y d (map_nodes f scene)))
    = loaded_disposals scene).
  { rewrite disposals_add_position_y, (disposals_map_nodes _ f _ Hf), Htable.
    apply disposals_recorded. intros n0 m corners Hin Hkind.
    apply (Hrec n0 m corners); assumption. }
  unfold cleanup_on_unmount, cleanup_on_url_change.
  rewrite Hmodel, !teardown_released. simpl.
  rewrite Hreleased.
  repeat split; try reflexivity; exact Htable.
Qed.

Lemma teardown_releases_recorded_witness :
  let current :=
    Nat.iter 3 toggleTextures
      (handleModelLoad example_scene (mount (Material 0))) in
  snd (cleanup_on_url_change current)
  = [DisposeGeometry 1; DisposeMaterial (Material 7);
     DisposeGeometry 1; DisposeMaterial (Material 7)].
Proof.
  intros current.
  apply (teardown_releases_recorded example_scene (mount (Material 0)) 3).
  exact example_scene_NoDup.
Defined.

Lemma Forall_nodes_add_position_y (P : Node -> Prop) (d : number)
    (o : Object3D) :
  (forall i k p l c r p', P (mkNode i k p l c r) -> P (mkNode i k p' l c r)) ->
  Forall P (nodes o) -> Forall P (nodes (add_position_y d o)).
Proof.
  intros HP. destruct o as [[i k [[px py] pz] l c r] ch]. simpl.
  intros H. inversion H as [| ? ? Hroot Hrest]; subst.
  constructor; [apply (HP _ _ _ _ _ _ _ Hroot) | exact Hrest].
Qed.

Lemma swap_prepared (matte : MaterialRef) (n : Node) :
  prepared matte (swap matte n).
Proof.
  unfold prepared, swap, record_and_swap.
  destruct (kind n) eqn:Hk; simpl; [repeat split | rewrite Hk; exact I].
Qed.

(** X17.  What a load prepares, at every depth of the graph: the stored
    model has the objects of the loaded scene, in the same order; every
    mesh among them carries the matte material and casts and receives
    shadows; and the bounding points of every object are as loaded. *)
Theorem load_prepares_every_mesh (scene : Object3D) (s : state) :
  exists m,
    model (handleModelLoad scene s) = Some m /\
    object_ids m = object_ids scene /\
    map is_mesh (nodes m) = map is_mesh (nodes scene) /\
    map own_points (nodes m) = map own_points (nodes scene) /\
    Forall (prepared (matteMaterial s)) (nodes m).
Proof.
  rewrite handleModelLoad_state. simpl. eexists. split; [reflexivity |].
  repeat split.
  - unfold object_ids. rewrite map_nodes_add_position_y by reflexivity.
    apply object_ids_map_nodes. intros n. apply swap_oid.
  - rewrite map_nodes_add_position_y by reflexivity.
    rewrite nodes_map_nodes, map_map. apply map_ext. intros n. apply swap_oid.
  - rewrite map_nodes_add_position_y by reflexivity.
    rewrite nodes_map_nodes, map_map. apply map_ext. intros n.
    apply swap_same_frame.
  - apply Forall_nodes_add_position_y; [intros; assumption |].
    rewrite nodes_map_nodes. apply List.Forall_forall. intros n Hn.
    apply in_map_iff in Hn as (n0 & <- & _). apply swap_prepared.
Qed.

(** X18.  The side table only ever grows.  A load writes the entries of
    the meshes of the loaded scene and leaves every other key as it was,
    the entries of earlier loads included; neither the toggle nor the
    cleanup removes or changes an entry. *)
Theorem side_table_only_grows (scene : Object3D) (s : state) (id : nat) :
  ~ In id (object_ids scene) ->
  materials (handleModelLoad scene s) !! id = materials s !! id /\
  (forall s0, materials (toggleTextures s0) = materials s0) /\
  (forall s0 captured, materials (fst (teardown captured s0)) = materials s0).
Proof.
  intros Hid. split; [| split].
  - rewrite handleModelLoad_state. simpl. apply record_other. exact Hid.
  - intros s0. apply toggleTextures_fields.
  - intros s0 [m |]; reflexivity.
Qed.

Lemma side_table_only_grows_witness :
  let earlier :=
    {| model := None; materials := {[ 42 := Material 9 ]};
       matteMaterial := Material 0; errors := [] |} in
  materials (handleModelLoad example_scene earlier) !! 42 = Some (Material 9).
Proof.
  intros earlier.
  destruct (side_table_only_grows example_scene earlier 42) as [H _].
  - unfold object_ids. simpl. intuition discriminate.
  - rewrite H. reflexivity.
Defined.

(** X19.  A scene without geometry sinks out of sight: its bounding box
    is empty, the offset is minus infinity, and the stored model sits at
    height minus infinity. *)
Theorem empty_graph_sinks (scene : Object3D) (s : state) (py : R) :
  world_points scene = [] ->
  y_of (position (root scene)) = Fin py ->
  exists m,
    model (handleModelLoad scene s) = Some m /\
    y_of (position (root m)) = NegInf.
Proof.
  intros Hempty Hpy. rewrite handleModelLoad_state. simpl.
  eexists. split; [reflexivity |].
  rewrite setFromObject_swap, (empty_graph_offset scene Hempty).
  rewrite position_add_position_y, root_map_nodes.
  destruct (swap_same_frame (matteMaterial s) (root scene)) as (_ & -> & _).
  unfold y_of at 1. simpl. rewrite Hpy. reflexivity.
Qed.

Lemma empty_graph_sinks_witness :
  exists m,
    model (handleModelLoad empty_scene (mount (Material 0))) = Some m /\
    y_of (position (root m)) = NegInf.
Proof.
  apply (empty_graph_sinks empty_scene (mount (Material 0)) 0).
  - reflexivity.
  - reflexivity.
Defined.

End ModelContentTeardown.

(** ** [ModelViewer]: saving *)

Section ModelViewerFacts.

Import ModelViewer.

(** Every way through [handleSaveModel] once the guard has passed. *)
Ltac save_cases i a :=
  unfold handleSaveModel, guard, try_block in *;
  destruct (inputImage i) as [image |]; try discriminate;
  destruct (resolution i) as [res |]; try discriminate;
  destruct (string_truthy (url i) && string_truthy image && number_truthy res);
  try discriminate;
  destruct (exists_answer a) as [[|] | err1];
  destruct (project_or_null i) as [project |];
  destruct (project_answer a) as [[|] | err2];
  destruct (database_answer a) as [[] | err3];
  unfold has_onProjectSelect in *;
  destruct (onProjectSelect i) as [[[] | err4] |];
  try destruct (bool_decide (Some project <> currentProjectId i));
  simpl in *.

(** X20.  [handleSaveModel] never leaves the viewer in the saving state:
    without a url, an input image and a resolution (an empty text, zero
    and [NaN] count as missing) it does nothing at all, and otherwise the
    [saving] flag is false at the end, whatever the server answers and
    whether or not a call throws. *)
Theorem save_never_stays_saving (i : SaveInput) (a : ServerAnswers)
    (st : SaveState) :
  (guard i = false -> handleSaveModel i a st = (st, [])) /\
  (guard i = true -> saving (fst (handleSaveModel i a st)) = false).
Proof.
  split.
  - unfold handleSaveModel, guard.
    destruct (inputImage i) as [image |]; [| reflexivity].
    destruct (resolution i) as [res |]; [| reflexivity].
    intros ->. reflexivity.
  - intros Hguard. save_cases i a; reflexivity.
Qed.

Lemma example_guard : guard example_input = true.
Proof.
  unfold guard, example_input. simpl.
  destruct (Req_dec_T 256 0) as [H | _]; [| reflexivity].
  exfalso. revert H. apply not_0_IZR. discriminate.
Qed.

(** X21.  A save that passes the guard asks the server first whether the
    model exists, calls at most one of the two save actions, and none
    when the model exists already.  It shows exactly one notification,
    unless [onProjectSelect] is called and throws: then the success
    notification is followed by the error notification of the [catch]
    clause, and the save ends with the success flag and an error both
    set. *)
Theorem save_notifies_once_unless_callback_throws (i : SaveInput)
    (a : ServerAnswers) (st : SaveState) :
  guard i = true ->
  let st' := fst (handleSaveModel i a st) in
  let effects := snd (handleSaveModel i a st) in
  hd_error effects = Some (CheckModelExists (url i) (project_or_null i)) /\
  length (List.filter is_save effects) <= 1 /\
  (exists_answer a = Returns true -> List.filter is_save effects = []) /\
  (forall p err,
     In (ProjectSelected p) effects ->
     onProjectSelect i = Some (Throws err) ->
     List.filter is_toast effects =
       [ToastSuccess "Model saved to project successfully";
        ToastError "Failed to save model"] /\
     saveSuccess st' = true /\
     error st' = Some (save_error_message err)) /\
  ((forall p err,
      In (ProjectSelected p) effects ->
      onProjectSelect i <> Some (Throws err)) ->
   length (List.filter is_toast effects) = 1).
Proof.
  intros Hguard.
  destruct (project_or_null i) as [p |] eqn:Hp;
    unfold handleSaveModel, guard, try_block in *;
    destruct (inputImage i) as [image |]; try discriminate;
    destruct (resolution i) as [res |]; try discriminate;
    destruct (string_truthy (url i) && string_truthy image && number_truthy res);
    try discriminate;
    rewrite ?Hp;
    destruct (exists_answer a) as [[|] | err1];
    destruct (project_answer a) as [[|] | err2];
    destruct (database_answer a) as [[] | err3];
    destruct (onProjectSelect i) as [[[] | err4] |];
    try destruct (bool_decide (Some p <> currentProjectId i));
    simpl;
    (split; [reflexivity |]);
    (split; [lia |]);
    (split; [intros; try discriminate; reflexivity |]);
    (split;
     [ intros q err Hin Hcb;
       repeat (destruct Hin as [Hin | Hin]); try discriminate Hin;
       try contradiction; try discriminate Hcb;
       injection Hcb as <-; repeat split
     | intros Hnot; try reflexivity;
       exfalso; refine (Hnot p err4 _ eq_refl); simpl; tauto ]).
Qed.

Lemma throwing_guard : guard throwing_input = true.
Proof. exact example_guard. Qed.

Lemma throwing_selects (st : SaveState) :
  In (ProjectSelected "p1")
    (snd (handleSaveModel throwing_input example_answers st)).
Proof.
  unfold handleSaveModel, throwing_input, example_input. simpl.
  destruct (Req_dec_T 256 0) as [H | _].
  - exfalso. revert H. apply not_0_IZR. discriminate.
  - simpl. auto 10.
Qed.

Lemma save_notifies_once_unless_callback_throws_witness :
  let st := {| error := None; saving := false; saveSuccess := false |} in
  let st' := fst (handleSaveModel throwing_input example_answers st) in
  let effects := snd (handleSaveModel throwing_input example_answers st) in
  List.filter is_toast effects =
    [ToastSuccess "Model saved to project successfully";
     ToastError "Failed to save model"] /\
  saveSuccess st' = true /\
  error st' = Some "no such project".
Proof.
  intros st st' effects.
  apply (proj1 (proj2 (proj2 (proj2
           (save_notifies_once_unless_callback_throws
              throwing_input example_answers st throwing_guard))))
           "p1" (ModelLoader.ErrorInstance "no such project")).
  - apply throwing_selects.
  - reflexivity.
Defined.

(** X22.  A save that passes the guard ends in success or in an error,
    never in neither: when no error is set at the end the success flag is
    set, an error is set exactly when an error notification was shown,
    and a success flag that was set before is never cleared, not even by
    a failed save. *)
Theorem save_ends_in_success_or_error (i : SaveInput) (a : ServerAnswers)
    (st : SaveState) :
  guard i = true ->
  let st' := fst (handleSaveModel i a st) in
  let effects := snd (handleSaveModel i a st) in
  (error st' = None -> saveSuccess st' = true) /\
  (error st' <> None <-> existsb is_error_toast effects = true) /\
  (saveSuccess st = true -> saveSuccess st' = true).
Proof.
  intros Hguard. save_cases i a;
    (split; [| split; [split |]]); intros; try reflexivity;
      try discriminate; try assumption; try congruence.
Qed.

Lemma save_ends_in_success_or_error_witness :
  let failing :=
    {| exists_answer := Returns false;
       project_answer := Throws (ModelLoader.OtherValue None);
       database_answer := Returns tt |} in
  let st := {| error := None; saving := false; saveSuccess := true |} in
  saveSuccess (fst (handleSaveModel example_input failing st)) = true.
Proof.
  intros failing st.
  apply (save_ends_in_success_or_error example_input failing st).
  - exact example_guard.
  - reflexivity.
Defined.

(** X23.  [onProjectSelect] is called with a project exactly when the
    guard passes, a callback was given, that project is the selected one,
    the model did not exist yet, saving it to the project returned a
    truthy result, and the project is not the current one. *)
Theorem project_selected_iff (i : SaveInput) (a : ServerAnswers)
    (st : SaveState) (p : string) :
  In (ProjectSelected p) (snd (handleSaveModel i a st)) <->
  guard i = true /\
  project_or_null i = Some p /\
  exists_answer a = Returns false /\
  project_answer a = Returns true /\
  has_onProjectSelect i = true /\
  Some p <> currentProjectId i.
Proof.
  unfold handleSaveModel, guard, try_block.
  destruct (inputImage i) as [image |];
    [| simpl; split; [tauto | intros (H & _); discriminate H]].
  destruct (resolution i) as [res |];
    [| simpl; split; [tauto | intros (H & _); discriminate H]].
  destruct (string_truthy (url i) && string_truthy image && number_truthy res);
    [| simpl; split; [tauto | intros (H & _); discriminate H]].
  destruct (exists_answer a) as [[|] | err1];
    destruct (project_or_null i) as [project |];
    destruct (project_answer a) as [[|] | err2];
    destruct (database_answer a) as [[] | err3];
    unfold has_onProjectSelect;
    destruct (onProjectSelect i) as [[[] | err4] |];
    try (destruct (bool_decide_reflect (Some project <> currentProjectId i)));
    simpl;
    (split;
     [ intros H; repeat (destruct H as [H | H]); try discriminate H;
       try contradiction; injection H as <-; repeat split; assumption
     | intros (_ & H1 & H2 & H3 & H4 & H5); try congruence;
       injection H1 as <-; tauto ]).
Qed.

End ModelViewerFacts.

(** ** [MovableLight]: a whole drag *)

Section MovableLightDrags.

Lemma updaters_reposition (q : list (number * number)) (l : LightState) :
  let l' := fold_left (fun prev u => updateLight false (fst u) (snd u) prev) q l in
  intensity l' = intensity l /\ temperature l' = temperature l /\
  snd (position l') = snd (position l).
Proof.
  revert l. induction q as [| [dx dy] q IH]; intros l; simpl.
  - repeat split.
  - destruct (IH (updateLight false dx dy l)) as (Hi & Ht & Hz).
    simpl in Hi, Ht, Hz. rewrite Hi, Ht, Hz.
    destruct l as [[[px py] pz] i t]. repeat split.
Qed.

Lemma updaters_adjust (q : list (number * number)) (l : LightState) :
  position
    (fold_left (fun prev u => updateLight true (fst u) (snd u) prev) q l)
  = position l.
Proof.
  revert l. induction q as [| [dx dy] q IH]; intros l; simpl.
  - reflexivity.
  - rewrite IH. reflexivity.
Qed.

(** While [isAdjusting] is clear, an event other than a pointer-down with
    both modifiers leaves it clear, and leaves intensity, temperature
    and the third coordinate as they are. *)
Lemma handlePointer_not_adjusting (s : MovableLight) (ev : PointerEvent) :
  isAdjusting s = false -> is_adjust_down ev = false ->
  let s' := handlePointer s ev in
  isAdjusting s' = false /\
  intensity (lightState s') = intensity (lightState s) /\
  temperature (lightState s') = temperature (lightState s) /\
  snd (position (lightState s')) = snd (position (lightState s)).
Proof.
  intros Ha Hev. destruct ev as [e | e | |]; simpl in *.
  - unfold handleMouseDown. destruct (shiftKey e); simpl in *.
    + rewrite Hev. simpl. repeat split. exact Ha.
    + repeat split. exact Ha.
  - unfold handleMouseMove.
    destruct (negb (isDragging s) && negb (isAdjusting s)); simpl;
      repeat split; exact Ha.
  - repeat split.
  - rewrite Ha. split; [reflexivity |]. apply updaters_reposition.
Qed.

(** While [isAdjusting] is set, an event other than a pointer-up leaves
    it set, and leaves the position as it is. *)
Lemma handlePointer_adjusting (s : MovableLight) (ev : PointerEvent) :
  isAdjusting s = true -> is_up ev = false ->
  let s' := handlePointer s ev in
  isAdjusting s' = true /\
  position (lightState s') = position (lightState s).
Proof.
  intros Ha Hev. destruct ev as [e | e | |]; simpl in *.
  - unfold handleMouseDown.
    destruct (shiftKey e), (altKey e); simpl; split; auto.
  - unfold handleMouseMove. rewrite Ha, andb_false_r. simpl. split; auto.
  - discriminate.
  - rewrite Ha. split; [reflexivity |]. apply updaters_adjust.
Qed.

Lemma handlePointers_not_adjusting (evs : list PointerEvent) (s : MovableLight) :
  isAdjusting s = false ->
  forallb (fun ev => negb (is_adjust_down ev)) evs = true ->
  let s' := handlePointers s evs in
  isAdjusting s' = false /\
  intensity (lightState s') = intensity (lightState s) /\
  temperature (lightState s') = temperature (lightState s) /\
  snd (position (lightState s')) = snd (position (lightState s)).
Proof.
  revert s. induction evs as [| ev evs IH]; intros s Ha Hevs; simpl.
  - repeat split. exact Ha.
  - simpl in Hevs. apply andb_prop in Hevs as [Hev Hrest].
    apply negb_true_iff in Hev.
    destruct (handlePointer_not_adjusting s ev Ha Hev) as (Ha' & Hi & Ht & Hz).
    destruct (IH _ Ha' Hrest) as (Ha'' & Hi' & Ht' & Hz').
    repeat split; try assumption; congruence.
Qed.

Lemma handlePointers_adjusting (evs : list PointerEvent) (s : MovableLight) :
  isAdjusting s = true ->
  forallb (fun ev => negb (is_up ev)) evs = true ->
  let s' := handlePointers s evs in
  isAdjusting s' = true /\
  position (lightState s') = position (lightState s).
Proof.
  revert s. induction evs as [| ev evs IH]; intros s Ha Hevs; simpl.
  - split; [exact Ha | reflexivity].
  - simpl in Hevs. apply andb_prop in Hevs as [Hev Hrest].
    apply negb_true_iff in Hev.
    destruct (handlePointer_adjusting s ev Ha Hev) as (Ha' & Hp).
    destruct (IH _ Ha' Hrest) as (Ha'' & Hp').
    split; [assumption | congruence].
Qed.

(** X24.  Which quantities a drag touches depends on [isAdjusting.current]
    at the time React runs the queued updaters.  After a pointer-down with
    the trigger modifier alone, while [isAdjusting] was clear, any
    pointer-moves, pointer-ups, renders and further pointer-downs that do
    not hold both modifiers leave intensity, temperature and the third
    coordinate of the position as they are.  After a pointer-down with
    both modifiers, any pointer-moves, pointer-downs and renders that come
    before the pointer-up leave the whole position as it is.  The
    modifiers of the moves play no part. *)
Theorem drag_modes_are_separate (s : MovableLight) (down : MouseEvent)
    (rest : list PointerEvent) :
  shiftKey down = true ->
  let s' := handlePointers (handleMouseDown down s) rest in
  (altKey down = false -> isAdjusting s = false ->
   forallb (fun ev => negb (is_adjust_down ev)) rest = true ->
   intensity (lightState s') = intensity (lightState s) /\
   temperature (lightState s') = temperature (lightState s) /\
   snd (position (lightState s')) = snd (position (lightState s))) /\
  (altKey down = true ->
   forallb (fun ev => negb (is_up ev)) rest = true ->
   position (lightState s') = position (lightState s)).
Proof.
  intros Hshift s'. split.
  - intros Halt Ha Hrest.
    assert (Hdown : isAdjusting (handleMouseDown down s) = false /\
                    lightState (handleMouseDown down s) = lightState s).
    { unfold handleMouseDown. rewrite Hshift, Halt. simpl.
      split; [exact Ha | reflexivity]. }
    destruct Hdown as (Ha' & Hl).
    destruct (handlePointers_not_adjusting rest _ Ha' Hrest)
      as (_ & Hi & Ht & Hz).
    fold s' in Hi, Ht, Hz. rewrite Hl in Hi, Ht, Hz. repeat split; assumption.
  - intros Halt Hrest.
    destruct (mouse_down_enters_adjust down s Hshift Halt) as (Ha' & _ & Hl).
    destruct (handlePointers_adjusting rest _ Ha' Hrest) as (_ & Hp).
    fold s' in Hp. rewrite Hl in Hp. exact Hp.
Qed.

Lemma drag_modes_are_separate_witness :
  let down := {| shiftKey := true; altKey := false;
                 clientX := Fin 100; clientY := Fin 100 |} in
  let rest :=
    [ MouseMove {| shiftKey := false; altKey := true;
                   clientX := Fin 120; clientY := Fin 140 |};
      Render;
      MouseMove {| shiftKey := true; altKey := true;
                   clientX := Fin 90; clientY := Fin 10 |};
      MouseUp;
      Render ] in
  let s' :=
    handlePointers (handleMouseDown down (MovableLight_mount None)) rest in
  intensity (lightState s') = Fin 1 /\
  temperature (lightState s') = Fin 6500 /\
  snd (position (lightState s')) = Fin 2.
Proof.
  intros down rest s'.
  apply (drag_modes_are_separate (MovableLight_mount None) down rest);
    reflexivity.
Defined.

End MovableLightDrags.
